(** * hippogriffe: the public-API index, annotation rewriting, base-class
    flattening and source links of [hippogriffe/_extension.py].

    The host object graph (griffe) is represented by a record of observers on
    node identifiers; Python dictionaries keyed by strings are [gmap]s, Python
    sets are [gset]s, and raising code returns in the [result] type. *)

From Stdlib Require Import Ascii DecimalString.
From stdpp Require Import gmap strings list fin_maps.

Set Warnings "-register-all".

(** ** Python string methods *)

(** [s.startswith(p)] *)
Fixpoint startswith (s p : string) {struct p} : bool :=
  match p with
  | EmptyString => true
  | String c p' =>
      match s with
      | EmptyString => false
      | String d s' => if decide (c = d) then startswith s' p' else false
      end
  end.

Fixpoint string_drop (n : nat) (s : string) : string :=
  match n with
  | O => s
  | S n' => match s with EmptyString => EmptyString | String _ s' => string_drop n' s' end
  end.

(** [s.removeprefix(p)] *)
Definition removeprefix (s p : string) : string :=
  if startswith s p then string_drop (String.length p) s else s.

(** [s.endswith(p)] *)
Definition endswith (s p : string) : bool :=
  startswith (String.rev s) (String.rev p).

(** [s.removesuffix(p)] *)
Definition removesuffix (s p : string) : string :=
  if endswith s p
  then String.rev (string_drop (String.length p) (String.rev s))
  else s.

(** ** Exceptions and results *)

Inductive exn :=
  | NotInPublicApiException (key : string)
      (* "Tried and failed to find {key} in the public API. ..." *)
  | AmbiguousPaths (key : string) (paths : list string)
      (* ValueError: "{key} has multiple paths in the public API: {paths}" *)
  | CyclicAliasError
  | RepoUrlMissing
      (* ValueError: "... requires specifying a top-level `repo_url`." *)
  | NotAGitRepository
      (* ValueError: "... requires running from a git repository ..." *)
  | UnsupportedHost
      (* ValueError: "... currently only supports ... github ... gitlab ..." *)
  | NotRelativeTo (path toplevel : string).
      (* ValueError of [pathlib.PurePath.relative_to] *)

Inductive result (A : Type) :=
  | Ok (a : A)
  | Raise (e : exn).
Arguments Ok {A} a.
Arguments Raise {A} e.

Definition bind {A B} (r : result A) (k : A → result B) : result B :=
  match r with
  | Ok a => k a
  | Raise e => Raise e
  end.

Global Instance result_ret : MRet result := λ A a, Ok a.
Global Instance result_bind : MBind result := λ A B k r, bind r k.

(** ** The object graph handed over by the host *)

Definition node := nat.

Inductive kind := KModule | KClass | KFunction | KAttribute.

(** The outcome of [alias.final_target]. *)
Inductive resolution :=
  | Resolved (target : node)
  | AliasResolutionError
  | CyclicAlias.

Record graph := Graph {
  name : node → string;               (* item.name *)
  path : node → string;               (* item.path *)
  is_alias : node → bool;             (* isinstance(item, griffe.Alias) *)
  final_target : node → resolution;   (* item.final_target *)
  all_members : node → list node;     (* item.all_members.values() *)
  obj_kind : node → kind;             (* is_module / is_class / is_function / ... *)
  bases : node → list string;         (* the paths of cls.bases *)
  modules_collection : string → option node;  (* cls.modules_collection[path] *)
  lineno : node → option nat;
  endlineno : node → option nat;
  filepath : node → option string     (* Some p when filepath is one Path *)
}.

(** ** [_PublicApi] *)

Record _PublicApi := PublicApi {
  _objects : gset node;
  _toplevel_objects : gset node;
  _data : gmap string (list string);
  _builtin_modules : list string;
  _public_modules : list string
}.

(** The privacy test at the head of the traversal loop. *)
Definition is_private (nm : string) : bool :=
  startswith nm "_" && negb (startswith nm "__" && endswith nm "__").

(** The local variables of [_PublicApi.__init__] while its loop runs.  The
    agenda is kept with its last element first, so that [agenda.pop()] takes
    the head and [agenda.extend(xs)] puts the reversal of [xs] in front. *)
Record loop_state := LoopState {
  ls_objects : gset node;
  ls_toplevel : gset node;
  ls_data : gmap string (list string);
  ls_seen : gset node;
  ls_agenda : list (node * bool)
}.

Section Traversal.
Variable g : graph.
Variable top_level_public_api : gset string.

(** The first part of the loop body: the filters on a popped item.  [Ok
    (Some final_item)] when the item goes on, [Ok None] on [continue]. *)
Definition filter_item (item : node) : result (option node) :=
  if is_private (name g item) then Ok None
  else if is_alias g item then
    match final_target g item with
    | AliasResolutionError => Ok None
    | CyclicAlias => Raise CyclicAliasError
    | Resolved final_item =>
        if decide (name g item = name g final_item)
        then Ok (Some final_item) else Ok None
    end
  else Ok (Some item).

(** [(x, flag) for x in item.all_members.values() if x not in seen],
    pushed by [agenda.extend]. *)
Definition pushed (seen : gset node) (flag : bool) (item : node)
    : list (node * bool) :=
  reverse ((λ x, (x, flag)) <$> filter (λ x, x ∉ seen) (all_members g item)).

(** One turn of [while len(agenda) > 0], after [agenda.pop()] gave
    [(item, force_public)] and left [rest]. *)
Definition loop_body (st : loop_state) (item : node) (force_public : bool)
    (rest : list (node * bool)) : result loop_state :=
  let seen := {[item]} ∪ ls_seen st in
  fin ← filter_item item;
  match fin with
  | None =>
      Ok (LoopState (ls_objects st) (ls_toplevel st) (ls_data st) seen rest)
  | Some final_item =>
      let toplevel_public := bool_decide (path g item ∈ top_level_public_api) in
      if force_public || toplevel_public then
        let paths := default [] (ls_data st !! path g final_item) in
        Ok (LoopState
              ({[final_item]} ∪ ls_objects st)
              (if toplevel_public
               then {[final_item]} ∪ ls_toplevel st else ls_toplevel st)
              (<[path g final_item := paths ++ [path g item]]> (ls_data st))
              seen
              (pushed seen true item ++ rest))
      else
        Ok (LoopState (ls_objects st) (ls_toplevel st) (ls_data st) seen
              (pushed seen false item ++ rest))
  end.

Definition loop_init (pkg : node) : loop_state :=
  LoopState ∅ ∅ ∅ ∅ [(pkg, false)].

(** The loop, bounded by [fuel] turns: [None] when the bound is reached
    with a non-empty agenda. *)
Fixpoint loop (fuel : nat) (st : loop_state) : option (result loop_state) :=
  match ls_agenda st with
  | [] => Some (Ok st)
  | (item, force_public) :: rest =>
      match fuel with
      | O => None
      | S fuel' =>
          match loop_body st item force_public rest with
          | Ok st' => loop fuel' st'
          | Raise e => Some (Raise e)
          end
      end
  end.

(** [_PublicApi(pkg, top_level_public_api, builtin_modules, stdlib_modules,
    extra_public_modules)] *)
Definition new_PublicApi (fuel : nat) (pkg : node)
    (builtin_modules stdlib_modules extra_public_modules : list string)
    : option (result _PublicApi) :=
  match loop fuel (loop_init pkg) with
  | None => None
  | Some (Raise e) => Some (Raise e)
  | Some (Ok st) =>
      Some (Ok (PublicApi (ls_objects st) (ls_toplevel st) (ls_data st)
                  builtin_modules (stdlib_modules ++ extra_public_modules)))
  end.
End Traversal.

(** [_PublicApi.toplevel] and [_PublicApi.__iter__] *)
Definition toplevel (api : _PublicApi) : gset node := _toplevel_objects api.
Definition iter_api (api : _PublicApi) : gset node := _objects api.

(** The two prefix loops of [__getitem__]'s [except KeyError] branch. *)
Fixpoint builtin_fallback (ms : list string) (key : string)
    : option (string * bool) :=
  match ms with
  | [] => None
  | m :: ms' =>
      if startswith key (m +:+ ".")
      then Some (removeprefix key (m +:+ "."), false)
      else builtin_fallback ms' key
  end.

Fixpoint public_fallback (ms : list string) (key : string)
    : option (string * bool) :=
  match ms with
  | [] => None
  | m :: ms' =>
      if startswith key (m +:+ ".")
      then Some (key, false)
      else public_fallback ms' key
  end.

(** [_PublicApi.__getitem__] *)
Definition getitem (api : _PublicApi) (key : string) : result (string * bool) :=
  match _data api !! key with
  | None =>
      match builtin_fallback (_builtin_modules api) key with
      | Some r => Ok r
      | None =>
          match public_fallback (_public_modules api) key with
          | Some r => Ok r
          | None => Raise (NotInPublicApiException key)
          end
      end
  | Some paths =>
      match paths with
      | [p] => Ok (p, true)
      | _ => Raise (AmbiguousPaths key paths)
      end
  end.

(** ** Values seen by the pretty-printer *)

(** The runtime values that occur in annotations and defaults. *)
Inductive pyval :=
  | PyNone
  | PyStr (s : string)
  | PyInt (n : Z)
  | PyClass (module qualname : string)       (* isinstance(obj, type) *)
  | PyLiteral (args : list pyval)            (* get_origin(obj) is Literal *)
  | PyGeneric (origin : pyval) (args : list pyval)   (* origin[args] *)
  | PyUnion (args : list pyval)              (* a | b | ... *)
  | PyTuple (items : list pyval)
  | PyList (items : list pyval)
  | PyOpaque (repr : string).

(** [type(None)] *)
Definition NoneType : pyval := PyClass "builtins" "NoneType".

(** [isinstance(obj, type) and obj is not type(None)]; on success the
    [__module__] and [__qualname__] of the class. *)
Definition class_not_NoneType (obj : pyval) : option (string * string) :=
  match obj with
  | PyClass m q =>
      if bool_decide (m = "builtins" ∧ q = "NoneType") then None else Some (m, q)
  | _ => None
  end.

(** The documents of [wadler_lindig]: [TextDoc] and concatenation. *)
Inductive doc :=
  | TextDoc (s : string)
  | ConcatDoc (ds : list doc).

(** A module namespace as [eval] sees it: [ctx s] is the value of
    [eval(s, ctx)], and [None] when the evaluation raises. *)
Definition context := string → option pyval.

(** [if context is not None and isinstance(obj, str)]: the string gives way
    to what it evaluates to, and stays when the evaluation raises. *)
Definition resolve_forward_ref (context : option context) (obj : pyval)
    : pyval :=
  match context, obj with
  | Some ctx, PyStr s => default obj (ctx s)
  | _, _ => obj
  end.

(** Whether a class other than [NoneType] occurs in a value, outside any
    [Literal]. *)
Fixpoint mentions_class (obj : pyval) : bool :=
  match obj with
  | PyClass _ _ => bool_decide (is_Some (class_not_NoneType obj))
  | PyGeneric origin args =>
      mentions_class origin || existsb mentions_class args
  | PyUnion args | PyTuple args | PyList args => existsb mentions_class args
  | PyLiteral _ | PyNone | PyStr _ | PyInt _ | PyOpaque _ => false
  end.

(** [inspect.Signature.empty] or a value. *)
Inductive annotation :=
  | Empty
  | Value (v : pyval).

Inductive inspect_kind :=
  | POSITIONAL_ONLY | POSITIONAL_OR_KEYWORD | VAR_POSITIONAL | KEYWORD_ONLY
  | VAR_KEYWORD.

Inductive ParameterKind :=
  | positional_only | positional_or_keyword | var_positional | keyword_only
  | var_keyword.

Definition _kind_map (k : inspect_kind) : ParameterKind :=
  match k with
  | POSITIONAL_ONLY => positional_only
  | POSITIONAL_OR_KEYWORD => positional_or_keyword
  | VAR_POSITIONAL => var_positional
  | KEYWORD_ONLY => keyword_only
  | VAR_KEYWORD => var_keyword
  end.

(** [inspect.Parameter] and [inspect.Signature] *)
Record inspect_Parameter := InspectParameter {
  ip_name : string;
  ip_annotation : annotation;
  ip_kind : inspect_kind;
  ip_default : annotation
}.

Record Signature := MkSignature {
  parameters : list inspect_Parameter;
  return_annotation : annotation
}.

(** [griffe.Parameter] *)
Record griffe_Parameter := GriffeParameter {
  gp_name : string;
  gp_annotation : option string;
  gp_kind : ParameterKind;
  gp_default : option string
}.

(** The runtime object behind a function node: its [__name__], when it has
    one, and [inspect.signature] of it. *)
Record runtime_obj := RuntimeObj {
  rt_name : option string;
  rt_signature : Signature
}.

(** [HippogriffeExtension.on_function_instance]: the signature stored in
    [func.extra["hippogriffe"]["signature"]]. *)
Definition on_function_instance (obj : runtime_obj) : Signature :=
  let signature := rt_signature obj in
  match rt_name obj with
  | None => signature
  | Some nm =>
      if decide (nm = "__init__")
      then MkSignature (parameters signature) Empty
      else signature
  end.

Section Pretty.
(** The pretty-printing library: how a value that no custom hook claimed
    is laid out from the documents of its parts, and how a document is
    rendered to text at the given width. *)
Variable wl_layout : pyval → list doc → doc.
Variable wl_render : doc → string.

(** [wl.pdoc(obj, custom=custom)]: the hook is asked first, on every
    object met. *)
Fixpoint pdoc (custom : pyval → result (option doc)) (obj : pyval)
    : result doc :=
  match custom obj with
  | Raise e => Raise e
  | Ok (Some d) => Ok d
  | Ok None =>
      let parts :=
        fix parts (l : list pyval) : result (list doc) :=
          match l with
          | [] => Ok []
          | x :: l' =>
              match pdoc custom x with
              | Raise e => Raise e
              | Ok d =>
                  match parts l' with
                  | Raise e => Raise e
                  | Ok ds => Ok (d :: ds)
                  end
              end
          end in
      match obj with
      | PyLiteral args | PyUnion args | PyTuple args | PyList args =>
          match parts args with
          | Raise e => Raise e
          | Ok ds => Ok (wl_layout obj ds)
          end
      | PyGeneric origin args =>
          match parts (origin :: args) with
          | Raise e => Raise e
          | Ok ds => Ok (wl_layout obj ds)
          end
      | PyNone | PyStr _ | PyInt _ | PyClass _ _ | PyOpaque _ =>
          Ok (wl_layout obj [])
      end
  end.

(** The loop of [pdoc] over the parts of a value. *)
Definition pdoc_parts (custom : pyval → result (option doc))
    : list pyval → result (list doc) :=
  fix parts (l : list pyval) : result (list doc) :=
    match l with
    | [] => Ok []
    | x :: l' =>
        match pdoc custom x with
        | Raise e => Raise e
        | Ok d =>
            match parts l' with
            | Raise e => Raise e
            | Ok ds => Ok (d :: ds)
            end
        end
    end.

(** The library's default hook. *)
Definition no_custom (obj : pyval) : result (option doc) := Ok None.

(** [wl.pformat(obj, custom=custom, width=9999)] *)
Definition pformat (custom : pyval → result (option doc)) (obj : pyval)
    : result string :=
  d ← pdoc custom obj; Ok (wl_render d).

(** The document of a value when no hook claims any part of it. *)
Fixpoint plain_doc (obj : pyval) : doc :=
  match obj with
  | PyLiteral args | PyUnion args | PyTuple args | PyList args =>
      wl_layout obj (List.map plain_doc args)
  | PyGeneric origin args =>
      wl_layout obj (plain_doc origin :: List.map plain_doc args)
  | PyNone | PyStr _ | PyInt _ | PyClass _ _ | PyOpaque _ =>
      wl_layout obj []
  end.

(** The closure [use_public_name] of [on_package_loaded]. *)
Definition use_public_name (public_api : _PublicApi)
    (context : option context) (obj : pyval) : result (option doc) :=
  match obj with
  | PyLiteral _ => d ← pdoc no_custom obj; Ok (Some d)
  | _ =>
      let obj := resolve_forward_ref context obj in
      match class_not_NoneType obj with
      | Some (m, q) =>
          r ← getitem public_api (m +:+ "." +:+ q);
          Ok (Some (TextDoc r.1))
      | None => Ok None
      end
  end.

Section Hook.
(** [_pretty_annotation], [_pretty_param] and [_pretty_fn] take the hook
    as an argument. *)
Variable hook : option context → pyval → result (option doc).

Definition _pretty_annotation (a : annotation) (ctx : context)
    : result (option string) :=
  match a with
  | Empty => Ok None
  | Value v => s ← pformat (hook (Some ctx)) v; Ok (Some s)
  end.

Definition _pretty_param (param : inspect_Parameter) (ctx : context)
    : result griffe_Parameter :=
  a ← _pretty_annotation (ip_annotation param) ctx;
  d ← match ip_default param with
      | Empty => Ok None
      | Value v => s ← pformat (hook None) v; Ok (Some s)
      end;
  Ok (GriffeParameter (ip_name param) a (_kind_map (ip_kind param)) d).

Fixpoint pretty_params (ps : list inspect_Parameter) (ctx : context)
    : result (list griffe_Parameter) :=
  match ps with
  | [] => Ok []
  | p :: ps' =>
      q ← _pretty_param p ctx;
      qs ← pretty_params ps' ctx;
      Ok (q :: qs)
  end.

(** [_pretty_fn]: the new [obj.parameters] and [obj.returns].
    [sys_modules] is [sys.modules] with each module seen through its
    [__dict__], and [empty_dict] is the namespace [{}], in which [eval]
    still finds the builtin names. *)
Definition _pretty_fn (sys_modules : string → option context)
    (empty_dict : context) (module_path : string) (signature : Signature)
    : result (list griffe_Parameter * option string) :=
  let ctx := default empty_dict (sys_modules module_path) in
  ps ← pretty_params (parameters signature) ctx;
  r ← _pretty_annotation (return_annotation signature) ctx;
  Ok (ps, r).
End Hook.
End Pretty.

(** ** Base classes *)

(** A character matched by [\w] (ASCII). *)
Definition is_word_char (c : ascii) : bool :=
  let n := nat_of_ascii c in
  ((48 <=? n) && (n <=? 57)) || ((65 <=? n) && (n <=? 90))
  || ((97 <=? n) && (n <=? 122)) || (n =? 95).

(** The longest run of word characters at the start of [s]. *)
Fixpoint take_word (s : string) : string :=
  match s with
  | EmptyString => EmptyString
  | String c s' => if is_word_char c then String c (take_word s') else EmptyString
  end.

(** [_builtin_re.match(base_path)] with [match.group(1)], for the pattern
    [builtins\.(\w+)]. *)
Definition _builtin_re_match (base_path : string) : option string :=
  if startswith base_path "builtins." then
    match take_word (removeprefix base_path "builtins.") with
    | EmptyString => None
    | w => Some w
    end
  else None.

(** An element of [_resolved_bases(cls)]: the name of a builtin, or an
    object of the graph. *)
Inductive resolved_base :=
  | BuiltinBase (nm : string)
  | ObjectBase (o : node).

(** A Python [dict] with string keys, in insertion order. *)
Definition pydict (V : Type) := list (string * V).

(** [d[k] = v]: an existing key keeps its place and takes the new value. *)
Fixpoint dict_set {V} (k : string) (v : V) (d : pydict V) : pydict V :=
  match d with
  | [] => [(k, v)]
  | (k', v') :: d' =>
      if decide (k = k') then (k, v) :: d' else (k', v') :: dict_set k v d'
  end.

(** [d.update(d')] *)
Definition dict_update {V} (d d' : pydict V) : pydict V :=
  foldl (λ acc kv, dict_set kv.1 kv.2 acc) d d'.

Definition dict_keys {V} (d : pydict V) : list string := fst <$> d.

Section Bases.
Variable g : graph.
(** [hasattr(builtins, name)] *)
Variable has_builtin : string → bool.

(** One turn of the loop of [_resolved_bases]: [None] when the suppressed
    exceptions drop the base. *)
Definition resolve_base (base_path : string) : option resolved_base :=
  match _builtin_re_match base_path with
  | None =>
      match modules_collection g base_path with
      | None => None
      | Some resolved =>
          if is_alias g resolved then
            match final_target g resolved with
            | Resolved t => Some (ObjectBase t)
            | AliasResolutionError | CyclicAlias => None
            end
          else Some (ObjectBase resolved)
      end
  | Some nm => if has_builtin nm then Some (BuiltinBase nm) else None
  end.

Definition _resolved_bases (cls : node) : list resolved_base :=
  omap resolve_base (bases g cls).

Definition is_class (o : node) : bool :=
  match obj_kind g o with KClass => true | _ => false end.

(** The loop of [_collect_bases] over the resolved bases, filling [acc];
    [recur] is the recursive call. *)
Definition collect_loop (recur : node → option (result (pydict bool)))
    (public_api : _PublicApi) (public_modules : gset string)
    : list resolved_base → pydict bool → option (result (pydict bool)) :=
  fix each (bs : list resolved_base) (acc : pydict bool) :=
    match bs with
    | [] => Some (Ok acc)
    | BuiltinBase nm :: bs' =>
        if bool_decide ("builtins" ∈ public_modules)
        then each bs' (dict_set nm false acc)
        else each bs' acc
    | ObjectBase b :: bs' =>
        if is_class b then
          match getitem public_api (path g b) with
          | Ok (p, autoref) => each bs' (dict_set p autoref acc)
          | Raise (NotInPublicApiException _) =>
              match recur b with
              | None => None
              | Some (Raise e) => Some (Raise e)
              | Some (Ok sub) => each bs' (dict_update acc sub)
              end
          | Raise e => Some (Raise e)
          end
        else each bs' acc
    end.

(** [_collect_bases(cls, public_api, public_modules)], with the depth of
    the recursion bounded by [fuel]: [None] when the bound is reached. *)
Fixpoint _collect_bases (fuel : nat) (cls : node) (public_api : _PublicApi)
    (public_modules : gset string) : option (result (pydict bool)) :=
  match fuel with
  | O => None
  | S fuel' =>
      collect_loop (λ b, _collect_bases fuel' b public_api public_modules)
        public_api public_modules (_resolved_bases cls) []
  end.

(** The bases to display for a class: a builtin base when [builtins] is
    a public module, a class base with what its lookup returns, and,
    through a class base whose lookup raises the not-public exception, the
    bases to display for that base. *)
Inductive displayed_base (public_api : _PublicApi)
    (public_modules : gset string) : node → string → bool → Prop :=
  | displayed_builtin cls nm :
      BuiltinBase nm ∈ _resolved_bases cls →
      "builtins" ∈ public_modules →
      displayed_base public_api public_modules cls nm false
  | displayed_found cls b p autoref :
      ObjectBase b ∈ _resolved_bases cls →
      is_class b = true →
      getitem public_api (path g b) = Ok (p, autoref) →
      displayed_base public_api public_modules cls p autoref
  | displayed_through cls b key p autoref :
      ObjectBase b ∈ _resolved_bases cls →
      is_class b = true →
      getitem public_api (path g b) = Raise (NotInPublicApiException key) →
      displayed_base public_api public_modules b p autoref →
      displayed_base public_api public_modules cls p autoref.
End Bases.

(** The value of a result, if any. *)
Definition source_links_result_of {A} (r : result A) : option A :=
  match r with
  | Ok a => Some a
  | Raise _ => None
  end.

(** ** Source links *)

(** What the two [git rev-parse] calls gave: the stripped output of each,
    [None] for a non-zero return code or a missing [git]. *)
Record git_info := GitInfo {
  git_head : option string;
  git_toplevel : option string
}.

(** [_get_repo_url]: the top-level directory and the text of the URL up to
    its [{path}] field. *)
Definition _get_repo_url (git : git_info) (repo_url : option string)
    : result (string * string) :=
  match repo_url with
  | None => Raise RepoUrlMissing
  | Some repo_url =>
      match git_head git, git_toplevel git with
      | Some commit_hash, Some toplevel =>
          let raw_url :=
            removeprefix (removeprefix repo_url "https://") "https://" in
          if startswith raw_url "github.com" || startswith raw_url "gitlab.com"
          then Ok (toplevel,
                   removesuffix repo_url "/" +:+ "/blob/" +:+ commit_hash +:+ "/")
          else Raise UnsupportedHost
      | _, _ => Raise NotAGitRepository
      end
  end.

Definition str_of_nat (n : nat) : string :=
  NilEmpty.string_of_uint (Nat.to_uint n).

(** [repo_url.format(path=path, start=start, end=end)] *)
Definition format_url (url_prefix path : string) (start end_ : nat) : string :=
  url_prefix +:+ path +:+ "#L" +:+ str_of_nat start +:+ "-" +:+ str_of_nat end_.

Inductive show_source_links := SourceNone | SourceToplevel | SourceAll.

Section SourceLinks.
Variable g : graph.
(** [path.relative_to(toplevel)], [None] when it raises. *)
Variable relative_to : string → string → option string.
Variable git : git_info.
Variable repo_url : option string.

(** The objects the last loop of [on_package_loaded] runs over. *)
Definition api_iterable (mode : show_source_links) (api : _PublicApi)
    : list node :=
  match mode with
  | SourceNone => []
  | SourceToplevel => elements (toplevel api)
  | SourceAll => elements (iter_api api)
  end.

(** [obj.lineno is not None and obj.endlineno is not None and
    isinstance(obj.filepath, pathlib.Path)] *)
Definition known_location (obj : node) : Prop :=
  is_Some (lineno g obj) ∧ is_Some (endlineno g obj)
  ∧ is_Some (filepath g obj).

(** The body of that loop for one object: the URL to store, if any. *)
Definition source_url (obj : node) : result (option string) :=
  match lineno g obj, endlineno g obj, filepath g obj with
  | Some start, Some end_, Some fp =>
      r ← _get_repo_url git repo_url;
      match relative_to fp r.1 with
      | None => Raise (NotRelativeTo fp r.1)
      | Some rel => Ok (Some (format_url r.2 rel start end_))
      end
  | _, _, _ => Ok None
  end.

(** The loop: the map from objects to the [url] stored in their [extra]. *)
Fixpoint attach_urls (objs : list node) (urls : gmap node string)
    : result (gmap node string) :=
  match objs with
  | [] => Ok urls
  | obj :: objs' =>
      u ← source_url obj;
      attach_urls objs' (match u with Some url => <[obj := url]> urls | None => urls end)
  end.

Definition source_links (mode : show_source_links) (api : _PublicApi)
    : result (gmap node string) :=
  attach_urls (api_iterable mode api) ∅.
End SourceLinks.

(** ** A small package, used to run the definitions

<<
    pkg/__init__.py      from ._impl import Foo, Pub, Dup, Bar
                         from ._impl import inference_mode as tree_inference
    pkg/sub.py           from ._impl import Dup
    pkg/_impl.py         class Pub: ...
                         class _Base(Pub): ...
                         class Foo(_Base):
                             def __init__(self) -> None: ...
                             def _helper(self): ...
                         class Dup(int): ...
                         class Bar(ext.Thing): ...
                         def inference_mode(): ...
    ext.py               class Thing: ...
>>
    with [pkg.Foo], [pkg.Pub], [pkg.Dup], [pkg.sub.Dup], [pkg.Bar] and
    [pkg.tree_inference] declared public at top level. *)
Module Example.
Definition pkg : node := 0.
Definition alias_Foo : node := 1.
Definition mod_impl : node := 2.
Definition cls_Foo : node := 3.
Definition cls_Base : node := 4.
Definition cls_Pub : node := 5.
Definition alias_tree_inference : node := 6.
Definition alias_Pub : node := 7.
Definition alias_Foo_init : node := 8.
Definition fn_init : node := 9.
Definition alias_Foo_helper : node := 10.
Definition fn_helper : node := 11.
Definition fn_inference_mode : node := 12.
Definition alias_sub_Dup : node := 13.
Definition mod_sub : node := 14.
Definition cls_Dup : node := 15.
Definition alias_Dup : node := 16.
Definition cls_Thing : node := 17.
Definition cls_Bar : node := 19.
Definition alias_Bar : node := 20.

Definition ex_name (n : node) : string :=
  match n with
  | 0 => "pkg" | 1 => "Foo" | 2 => "_impl" | 3 => "Foo" | 4 => "_Base"
  | 5 => "Pub" | 6 => "tree_inference" | 7 => "Pub" | 8 => "__init__"
  | 9 => "__init__" | 10 => "_helper" | 11 => "_helper"
  | 12 => "inference_mode" | 13 => "Dup" | 14 => "sub" | 15 => "Dup"
  | 16 => "Dup" | 17 => "Thing" | 19 => "Bar" | 20 => "Bar"
  | _ => "ext"
  end.

Definition ex_path (n : node) : string :=
  match n with
  | 0 => "pkg" | 1 => "pkg.Foo" | 2 => "pkg._impl" | 3 => "pkg._impl.Foo"
  | 4 => "pkg._impl._Base" | 5 => "pkg._impl.Pub"
  | 6 => "pkg.tree_inference" | 7 => "pkg.Pub" | 8 => "pkg.Foo.__init__"
  | 9 => "pkg._impl.Foo.__init__" | 10 => "pkg.Foo._helper"
  | 11 => "pkg._impl.Foo._helper" | 12 => "pkg._impl.inference_mode"
  | 13 => "pkg.sub.Dup" | 14 => "pkg.sub" | 15 => "pkg._impl.Dup"
  | 16 => "pkg.Dup" | 17 => "ext.Thing" | 19 => "pkg._impl.Bar"
  | 20 => "pkg.Bar"
  | _ => "ext"
  end.

Definition ex_final_target (n : node) : resolution :=
  match n with
  | 1 => Resolved cls_Foo
  | 6 => Resolved fn_inference_mode
  | 7 => Resolved cls_Pub
  | 8 => Resolved fn_init
  | 10 => Resolved fn_helper
  | 13 | 16 => Resolved cls_Dup
  | 20 => Resolved cls_Bar
  | _ => AliasResolutionError
  end.

Definition ex_is_alias (n : node) : bool :=
  match n with
  | 1 | 6 | 7 | 8 | 10 | 13 | 16 | 20 => true
  | _ => false
  end.

Definition ex_all_members (n : node) : list node :=
  match n with
  | 0 => [alias_Foo; alias_Pub; alias_Dup; alias_Bar; alias_tree_inference;
          mod_sub; mod_impl]
  | 1 => [alias_Foo_init; alias_Foo_helper]
  | 2 => [cls_Pub; cls_Base; cls_Foo; cls_Dup; cls_Bar; fn_inference_mode]
  | 3 => [fn_init; fn_helper]
  | 14 => [alias_sub_Dup]
  | _ => []
  end.

Definition ex_kind (n : node) : kind :=
  match n with
  | 0 | 2 | 14 => KModule
  | 8 | 9 | 10 | 11 | 6 | 12 => KFunction
  | _ => KClass
  end.

Definition ex_bases (n : node) : list string :=
  match n with
  | 3 => ["pkg._impl._Base"]
  | 4 => ["pkg._impl.Pub"]
  | 15 => ["builtins.int"]
  | 19 => ["ext.Thing"]
  | _ => []
  end.

Definition ex_modules_collection (p : string) : option node :=
  if decide (p = "pkg._impl._Base") then Some cls_Base
  else if decide (p = "pkg._impl.Pub") then Some cls_Pub
  else if decide (p = "pkg._impl.Foo") then Some cls_Foo
  else if decide (p = "ext.Thing") then Some cls_Thing
  else None.

Definition ex_lineno (n : node) : option nat :=
  match n with
  | 3 => Some 7 | 5 => Some 1 | 9 => Some 8 | 15 => Some 20 | 19 => Some 30
  | _ => None
  end.

Definition ex_endlineno (n : node) : option nat :=
  match n with
  | 3 => Some 12 | 5 => Some 2 | 9 => Some 9 | 15 => Some 21 | 19 => Some 31
  | _ => None
  end.

Definition ex_filepath (n : node) : option string :=
  match n with
  | 3 | 5 | 9 | 15 | 19 => Some "/repo/pkg/_impl.py"
  | _ => None
  end.

Definition ex_graph : graph :=
  Graph ex_name ex_path ex_is_alias ex_final_target ex_all_members ex_kind
    ex_bases ex_modules_collection ex_lineno ex_endlineno ex_filepath.

Definition ex_top : gset string :=
  {[ "pkg.Foo"; "pkg.Pub"; "pkg.Dup"; "pkg.sub.Dup"; "pkg.Bar";
     "pkg.tree_inference" ]}.

(** The index of the package, with [builtins] as builtin module and [ext]
    as extra public module. *)
Definition ex_api : _PublicApi :=
  PublicApi {[ cls_Bar; cls_Dup; cls_Pub; cls_Foo; fn_init ]}
    {[ cls_Bar; cls_Dup; cls_Pub; cls_Foo ]}
    (<["pkg._impl.Foo.__init__" := ["pkg.Foo.__init__"]]>
     (<["pkg._impl.Foo" := ["pkg.Foo"]]>
      (<["pkg._impl.Pub" := ["pkg.Pub"]]>
       (<["pkg._impl.Dup" := ["pkg.sub.Dup"; "pkg.Dup"]]>
        (<["pkg._impl.Bar" := ["pkg.Bar"]]> ∅)))))
    ["builtins"] ["ext"].

Definition ex_has_builtin (nm : string) : bool :=
  bool_decide (nm = "object" ∨ nm = "int" ∨ nm = "str").

(** The namespace of [pkg._impl]: the names it defines evaluate to their
    classes. *)
Definition ex_context : context := λ s,
  if decide (s = "Pub") then Some (PyClass "pkg._impl" "Pub")
  else if decide (s = "Foo") then Some (PyClass "pkg._impl" "Foo")
  else if decide (s = "int") then Some (PyClass "builtins" "int")
  else if decide (s = "str") then Some (PyClass "builtins" "str")
  else None.

Fixpoint join_docs (sep : string) (ds : list doc) : list doc :=
  match ds with
  | [] => []
  | [d] => [d]
  | d :: ds' => d :: TextDoc sep :: join_docs sep ds'
  end.

(** A layout in the manner of the library's defaults. *)
Definition ex_layout (obj : pyval) (ds : list doc) : doc :=
  match obj with
  | PyNone => TextDoc "None"
  | PyStr s => TextDoc ("'" +:+ s +:+ "'")
  | PyInt n => TextDoc (NilEmpty.string_of_int (Z.to_int n))
  | PyClass _ q => TextDoc q
  | PyLiteral _ =>
      ConcatDoc (TextDoc "Literal[" :: join_docs ", " ds ++ [TextDoc "]"])
  | PyGeneric _ _ =>
      match ds with
      | [] => TextDoc "[]"
      | o :: args =>
          ConcatDoc (o :: TextDoc "[" :: join_docs ", " args ++ [TextDoc "]"])
      end
  | PyUnion _ => ConcatDoc (join_docs " | " ds)
  | PyTuple _ => ConcatDoc (TextDoc "(" :: join_docs ", " ds ++ [TextDoc ")"])
  | PyList _ => ConcatDoc (TextDoc "[" :: join_docs ", " ds ++ [TextDoc "]"])
  | PyOpaque r => TextDoc r
  end.

Fixpoint ex_render (d : doc) : string :=
  match d with
  | TextDoc s => s
  | ConcatDoc ds =>
      (fix cat (l : list doc) : string :=
         match l with
         | [] => ""
         | x :: l' => ex_render x +:+ cat l'
         end) ds
  end.

(** The depth of a class in the inheritance of the package. *)
Definition ex_rank (n : node) : nat :=
  match n with
  | 3 => 2 | 4 => 1 | 19 => 1
  | _ => 0
  end.

Definition ex_relative_to (p toplevel : string) : option string :=
  if startswith p (toplevel +:+ "/")
  then Some (removeprefix p (toplevel +:+ "/")) else None.

Definition ex_git : git_info := GitInfo (Some "abc123") (Some "/repo").
Definition ex_repo_url : option string := Some "https://github.com/org/pkg".
End Example.



(** No other node of the graph has the path of [item]. *)
Definition unique_path (g : graph) (item : node) : Prop :=
  ∀ other, path g other = path g item → other = item.

(** ** How items come to be examined and recorded *)

Section Routes.
Variable g : graph.
Variable top_level_public_api : gset string.
Variable pkg : node.

(** An alias whose name is not the name of its final target. *)
Definition renamed_on_import (item : node) : Prop :=
  is_alias g item = true
  ∧ ∃ t, final_target g item = Resolved t ∧ name g item ≠ name g t.

(** The items reached from the package through members of items that all
    satisfy [ok]. *)
Inductive route (ok : node → Prop) : node → Prop :=
  | route_root : route ok pkg
  | route_member parent x :
      route ok parent → ok parent → x ∈ all_members g parent → route ok x.

(** The entries that can be put on the agenda: the package, and the
    members of an item that passed the filters, with the flag it hands
    down. *)
Inductive agenda_entry : node → bool → Prop :=
  | entry_root : agenda_entry pkg false
  | entry_member item force_public final_item x :
      agenda_entry item force_public →
      filter_item g item = Ok (Some final_item) →
      x ∈ all_members g item →
      agenda_entry x
        (force_public || bool_decide (path g item ∈ top_level_public_api)).

(** [item] was examined, passed the filters with [final_item] and was
    public. *)
Definition recorded (item final_item : node) : Prop :=
  ∃ force_public,
    agenda_entry item force_public
    ∧ filter_item g item = Ok (Some final_item)
    ∧ force_public || bool_decide (path g item ∈ top_level_public_api) = true.

(** The invariant of the loop of [_PublicApi.__init__]. *)
Definition loop_inv (st : loop_state) : Prop :=
  (∀ x f, (x, f) ∈ ls_agenda st → agenda_entry x f)
  ∧ (∀ key ps, ls_data st !! key = Some ps →
       ps ≠ []
       ∧ ∀ p, p ∈ ps →
           ∃ item final_item,
             recorded item final_item ∧ path g item = p ∧ path g final_item = key)
  ∧ (∀ o, o ∈ ls_objects st →
       ∃ item ps, recorded item o
                  ∧ ls_data st !! path g o = Some ps ∧ path g item ∈ ps)
  ∧ (∀ o, o ∈ ls_toplevel st →
       o ∈ ls_objects st
       ∧ ∃ item, recorded item o ∧ path g item ∈ top_level_public_api).
End Routes.

(** ** What the finished traversal has covered *)

Section Coverage.
Variable g : graph.
Variable top_level_public_api : gset string.
Variable pkg : node.

(** The item passes the filters of the loop. *)
Definition passes (item : node) : Prop :=
  ∃ final_item, filter_item g item = Ok (Some final_item).

(** The path of [item] is listed under the path of [final_item], and
    [final_item] is among the objects. *)
Definition in_index (objects : gset node) (data : gmap string (list string))
    (item final_item : node) : Prop :=
  final_item ∈ objects
  ∧ ∃ paths, data !! path g final_item = Some paths ∧ path g item ∈ paths.

(** Every node is a member of at most one node, and the package of none. *)
Definition tree_shaped : Prop :=
  (∀ parent, pkg ∉ all_members g parent)
  ∧ (∀ x parent parent',
       x ∈ all_members g parent → x ∈ all_members g parent' →
       parent = parent').

(** What the loop keeps about the items it has seen. *)
Definition loop_inv_seen (st : loop_state) : Prop :=
  (pkg ∈ ls_seen st ∨ ∃ f, (pkg, f) ∈ ls_agenda st)
  ∧ (∀ x y, x ∈ ls_seen st → passes x → y ∈ all_members g x →
            y ∈ ls_seen st ∨ ∃ f, (y, f) ∈ ls_agenda st)
  ∧ (∀ x final_item,
       x ∈ ls_seen st → filter_item g x = Ok (Some final_item) →
       path g x ∈ top_level_public_api →
       final_item ∈ ls_toplevel st
       ∧ in_index (ls_objects st) (ls_data st) x final_item)
  ∧ (∀ key paths, ls_data st !! key = Some paths →
                  ∃ o, o ∈ ls_objects st ∧ path g o = key).

(** In a tree-shaped graph, what the loop keeps about the items it has seen
    and that were public. *)
Definition loop_inv_tree (st : loop_state) : Prop :=
  ∀ x f final_item,
    x ∈ ls_seen st →
    agenda_entry g top_level_public_api pkg x f →
    filter_item g x = Ok (Some final_item) →
    f || bool_decide (path g x ∈ top_level_public_api) = true →
    in_index (ls_objects st) (ls_data st) x final_item.
End Coverage.

(** ** The lookups behind one rendering *)

(** The parts of a value that [wl.pdoc] goes through when the hook does not
    claim the value. *)
Definition children (obj : pyval) : list pyval :=
  match obj with
  | PyLiteral args | PyUnion args | PyTuple args | PyList args => args
  | PyGeneric origin args => origin :: args
  | PyNone | PyStr _ | PyInt _ | PyClass _ _ | PyOpaque _ => []
  end.

(** The keys that [use_public_name] looks up in the index while a value is
    rendered under [context], in the order of the rendering. *)
Fixpoint lookups (context : option context) (obj : pyval) : list string :=
  match obj with
  | PyLiteral _ => []
  | _ =>
      match class_not_NoneType (resolve_forward_ref context obj) with
      | Some (m, q) => [m +:+ "." +:+ q]
      | None =>
          match obj with
          | PyGeneric origin args =>
              lookups context origin ++ flat_map (lookups context) args
          | PyUnion args | PyTuple args | PyList args =>
              flat_map (lookups context) args
          | PyLiteral _ | PyNone | PyStr _ | PyInt _ | PyClass _ _
          | PyOpaque _ => []
          end
      end
  end.

(** The exception of the first key, in order, whose lookup raises. *)
Fixpoint first_raise (api : _PublicApi) (keys : list string) : option exn :=
  match keys with
  | [] => None
  | key :: keys' =>
      match getitem api key with
      | Raise e => Some e
      | Ok _ => first_raise api keys'
      end
  end.

(** What [wl.pdoc] under the hook does on a value, in terms of the lookups
    of the value. *)
Definition follows_lookups (wl_layout : pyval → list doc → doc)
    (api : _PublicApi) (ctx : option context) (v : pyval) : Prop :=
  match first_raise api (lookups ctx v) with
  | Some e => pdoc wl_layout (use_public_name wl_layout api ctx) v = Raise e
  | None => ∃ d, pdoc wl_layout (use_public_name wl_layout api ctx) v = Ok d
  end.

(** A small tree-shaped package: the parent of each node of the example. *)
Module ExampleTree.
Definition parent_of (n : node) : option node :=
  match n with
  | 1 | 7 | 16 | 20 | 6 | 14 | 2 => Some 0
  | 8 | 10 => Some 1
  | 5 | 4 | 3 | 15 | 19 | 12 => Some 2
  | 9 | 11 => Some 3
  | 13 => Some 14
  | _ => None
  end.
End ExampleTree.

(** ** Attributes *)

(** The fields of a [griffe.Attribute] that the extension touches. *)
Record Attribute := MkAttribute {
  attr_value : option string;
  attr_labels : gset string
}.

(** [HippogriffeExtension.on_attribute_instance] *)
Definition on_attribute_instance (attr : Attribute) : Attribute :=
  MkAttribute None (attr_labels attr ∖ {["module"]}).



(** ** Items examined once *)

Section Once.
Variable g : graph.
Variable top_level_public_api : gset string.
Variable pkg : node.

(** No node is listed twice among the members of a node. *)
Definition members_distinct : Prop := ∀ x, NoDup (all_members g x).

(** What the loop keeps on a tree-shaped graph: no item is on the agenda
    twice or after it was seen, every item that came up has a parent that
    was seen, and the list under a key holds one path for each public item
    seen so far whose final target has the key as its path. *)
Definition loop_inv_once (st : loop_state) : Prop :=
  NoDup (ls_agenda st).*1
  ∧ (∀ x f, (x, f) ∈ ls_agenda st → x ∉ ls_seen st)
  ∧ (∀ x, x ∈ ls_seen st ∨ (∃ f, (x, f) ∈ ls_agenda st) →
          x = pkg ∨ ∃ parent, parent ∈ ls_seen st ∧ x ∈ all_members g parent)
  ∧ (∀ key paths,
       ls_data st !! key = Some paths →
       ∃ items,
         NoDup items ∧ paths = path g <$> items
         ∧ ∀ i, i ∈ items
                ↔ i ∈ ls_seen st
                  ∧ ∃ fi, recorded g top_level_public_api pkg i fi
                          ∧ path g fi = key).
End Once.

(** ** The first loop of [on_package_loaded] *)

(** The fields of [PluginConfig] that the extension reads. *)
Record PluginConfig := MkPluginConfig {
  builtin_modules : list string;
  stdlib_modules : list string;
  extra_public_modules : list string;
  show_bases : bool;
  cfg_show_source_links : show_source_links
}.

(** What the first loop stores on one object of the public API. *)
Inductive enrichment :=
  | FunctionPage (template : string) (params : list griffe_Parameter)
      (returns : option string)
  | ClassPage (template : string) (public_bases : option (list (string * bool)))
  | Untouched.

Section Package.
Variable g : graph.
Variable has_builtin : string → bool.
Variable wl_layout : pyval → list doc → doc.
Variable wl_render : doc → string.
Variable sys_modules : string → option context.
Variable empty_dict : context.
(** [obj.module.path] and [obj.extra["hippogriffe"]["signature"]] of a
    function. *)
Variable fn_module : node → string.
Variable fn_signature : node → Signature.

(** [set(extra_public_modules) | set(stdlib_modules)] *)
Definition public_modules_of (config : PluginConfig) : gset string :=
  list_to_set (extra_public_modules config)
  ∪ list_to_set (stdlib_modules config).

(** The body of [for obj in public_api], with the recursion of
    [_collect_bases] bounded by [fuel]. *)
Definition enrich (config : PluginConfig) (public_api : _PublicApi)
    (fuel : nat) (obj : node) : option (result enrichment) :=
  match obj_kind g obj with
  | KFunction =>
      Some (r ← _pretty_fn wl_layout wl_render
                  (use_public_name wl_layout public_api) sys_modules
                  empty_dict (fn_module obj) (fn_signature obj);
            Ok (FunctionPage "hippogriffe/fn.html.jinja" r.1 r.2))
  | KClass =>
      if show_bases config then
        match _collect_bases g has_builtin fuel obj public_api
                (public_modules_of config) with
        | None => None
        | Some (Raise e) => Some (Raise e)
        | Some (Ok d) =>
            Some (Ok (ClassPage "hippogriffe/class.html.jinja" (Some d)))
        end
      else Some (Ok (ClassPage "hippogriffe/class.html.jinja" None))
  | KModule | KAttribute => Some (Ok Untouched)
  end.
End Package.

(** * Properties *)

(** ** String methods *)

Lemma string_app_cons c p t : String c p +:+ t = String c (p +:+ t).
Proof. reflexivity. Qed.

Lemma string_app_nil t : "" +:+ t = t.
Proof. reflexivity. Qed.

Lemma startswith_app p t : startswith (p +:+ t) p = true.
Proof.
  induction p as [|c p IH]; [done|].
  rewrite string_app_cons. simpl. by rewrite decide_True.
Qed.

Lemma startswith_inv s p : startswith s p = true → ∃ t, s = p +:+ t.
Proof.
  revert s. induction p as [|c p IH]; intros s H; simpl in *.
  - by exists s.
  - destruct s as [|d s]; [done|]. destruct (decide (c = d)) as [->|]; [|done].
    destruct (IH _ H) as [t ->]. exists t. by rewrite string_app_cons.
Qed.

Lemma startswith_iff s p : startswith s p = true ↔ ∃ t, s = p +:+ t.
Proof.
  split; [apply startswith_inv|]. intros [t ->]. apply startswith_app.
Qed.

Lemma string_drop_app p t : string_drop (String.length p) (p +:+ t) = t.
Proof.
  induction p as [|c p IH]; [done|]. rewrite string_app_cons. simpl. apply IH.
Qed.

Lemma removeprefix_app p t : removeprefix (p +:+ t) p = t.
Proof. unfold removeprefix. by rewrite startswith_app, string_drop_app. Qed.

Lemma string_app_assoc (a b c : string) : (a +:+ b) +:+ c = a +:+ b +:+ c.
Proof.
  induction a as [|x a IH]; [done|]. rewrite !string_app_cons. by f_equal.
Qed.

Lemma string_app_nil_r (s : string) : s +:+ "" = s.
Proof. induction s as [|c s IH]; [done|]. rewrite string_app_cons. by f_equal. Qed.

Lemma string_rev_app_spec (s1 s2 : string) :
  String.rev_app s1 s2 = String.rev s1 +:+ s2.
Proof.
  unfold String.rev. revert s2.
  induction s1 as [|c s1 IH]; intros s2; simpl; [done|].
  rewrite (IH (String c s2)), (IH (String c "")).
  by rewrite string_app_assoc.
Qed.

Lemma string_rev_cons c s : String.rev (String c s) = String.rev s +:+ String c "".
Proof. unfold String.rev at 1. simpl. apply string_rev_app_spec. Qed.

Lemma string_rev_app (s1 s2 : string) :
  String.rev (s1 +:+ s2) = String.rev s2 +:+ String.rev s1.
Proof.
  induction s1 as [|c s1 IH].
  - rewrite string_app_nil. by rewrite string_app_nil_r.
  - rewrite string_app_cons, !string_rev_cons, IH.
    by rewrite string_app_assoc.
Qed.

Lemma string_rev_involutive (s : string) : String.rev (String.rev s) = s.
Proof.
  induction s as [|c s IH]; [done|].
  by rewrite string_rev_cons, string_rev_app, IH.
Qed.

Lemma string_length_app (s1 s2 : string) :
  String.length (s1 +:+ s2) = String.length s1 + String.length s2.
Proof.
  induction s1 as [|c s1 IH]; [done|]. rewrite string_app_cons. simpl.
  by rewrite IH.
Qed.

Lemma string_length_rev (s : string) :
  String.length (String.rev s) = String.length s.
Proof.
  induction s as [|c s IH]; [done|].
  rewrite string_rev_cons, string_length_app, IH. simpl. lia.
Qed.

(** [s.endswith(p)] holds exactly when [s] is some text followed by [p]. *)
Lemma endswith_iff s p : endswith s p = true ↔ ∃ t, s = t +:+ p.
Proof.
  unfold endswith. rewrite startswith_iff. split.
  - intros [t Ht]. exists (String.rev t).
    rewrite <- (string_rev_involutive s), Ht, string_rev_app.
    by rewrite string_rev_involutive.
  - intros [t ->]. exists (String.rev t). apply string_rev_app.
Qed.

Lemma removesuffix_app t p : removesuffix (t +:+ p) p = t.
Proof.
  unfold removesuffix.
  rewrite (proj2 (endswith_iff (t +:+ p) p)) by by exists t.
  rewrite string_rev_app, <- (string_length_rev p), string_drop_app.
  apply string_rev_involutive.
Qed.

(** ** Lookup in the index *)

Lemma builtin_fallback_first pre m post key rest :
  Forall (λ m', startswith key (m' +:+ ".") = false) pre →
  key = m +:+ "." +:+ rest →
  builtin_fallback (pre ++ m :: post) key = Some (rest, false).
Proof.
  intros Hpre ->. induction Hpre as [|m' pre Hm' _ IH]; simpl.
  - rewrite <- string_app_assoc.
    by rewrite startswith_app, removeprefix_app.
  - by rewrite Hm'.
Qed.

Lemma builtin_fallback_none ms key :
  Forall (λ m, startswith key (m +:+ ".") = false) ms →
  builtin_fallback ms key = None.
Proof. induction 1 as [|m ms Hm _ IH]; simpl; [done|]. by rewrite Hm. Qed.

Lemma public_fallback_some ms m key :
  m ∈ ms → startswith key (m +:+ ".") = true →
  public_fallback ms key = Some (key, false).
Proof.
  induction ms as [|m' ms IH]; intros Hin Hm; [by apply elem_of_nil in Hin|].
  simpl. destruct (startswith key (m' +:+ ".")) eqn:E; [done|].
  apply elem_of_cons in Hin as [->|Hin]; [congruence|]. by apply IH.
Qed.

Lemma public_fallback_none ms key :
  Forall (λ m, startswith key (m +:+ ".") = false) ms →
  public_fallback ms key = None.
Proof. induction 1 as [|m ms Hm _ IH]; simpl; [done|]. by rewrite Hm. Qed.

(** C8: a key absent from the index is looked up in the builtin-module
    prefixes first (the first module [m] with [key = m.rest] gives
    [(rest, False)]), then in the stdlib and extra public-module prefixes
    (a match gives [(key, False)]), and otherwise the lookup raises the
    not-public exception and returns no value. *)
Theorem getitem_absent (api : _PublicApi) (key : string) :
  _data api !! key = None →
  (∀ pre m post rest,
      _builtin_modules api = pre ++ m :: post →
      Forall (λ m', ¬ ∃ t, key = (m' +:+ ".") +:+ t) pre →
      key = m +:+ "." +:+ rest →
      getitem api key = Ok (rest, false))
  ∧ (∀ m,
      Forall (λ m', ¬ ∃ t, key = (m' +:+ ".") +:+ t) (_builtin_modules api) →
      m ∈ _public_modules api →
      (∃ t, key = (m +:+ ".") +:+ t) →
      getitem api key = Ok (key, false))
  ∧ (Forall (λ m', ¬ ∃ t, key = (m' +:+ ".") +:+ t)
        (_builtin_modules api ++ _public_modules api) →
      getitem api key = Raise (NotInPublicApiException key)).
Proof.
  intros Hkey. unfold getitem. rewrite Hkey.
  assert (Hno : ∀ ms, Forall (λ m', ¬ ∃ t, key = (m' +:+ ".") +:+ t) ms →
                 Forall (λ m', startswith key (m' +:+ ".") = false) ms).
  { intros ms Hms. eapply Forall_impl; [exact Hms|]. intros m' Hm'. simpl in *.
    destruct (startswith key (m' +:+ ".")) eqn:E; [|done].
    destruct Hm'. by apply startswith_inv. }
  split; [|split].
  - intros pre m post rest -> Hpre Hm.
    by rewrite (builtin_fallback_first pre m post key rest) by auto.
  - intros m Hb Hin Hm.
    rewrite builtin_fallback_none by auto.
    by rewrite (public_fallback_some _ m) by (by (try apply startswith_iff)).
  - intros [Hb Hp]%Forall_app.
    by rewrite builtin_fallback_none, public_fallback_none by auto.
Qed.

Lemma getitem_absent_witness :
  getitem Example.ex_api "builtins.int" = Ok ("int", false)
  ∧ getitem Example.ex_api "ext.Thing" = Ok ("ext.Thing", false)
  ∧ getitem Example.ex_api "pkg._impl._Base"
    = Raise (NotInPublicApiException "pkg._impl._Base").
Proof.
  split; [|split].
  - refine (proj1 (getitem_absent Example.ex_api "builtins.int" _)
              [] "builtins" [] "int" _ _ _);
      [by vm_compute | done | constructor | done].
  - refine (proj1 (proj2 (getitem_absent Example.ex_api "ext.Thing" _))
              "ext" _ _ _).
    + by vm_compute.
    + repeat constructor. intros [t Ht]. discriminate Ht.
    + apply elem_of_cons. by left.
    + by exists "Thing".
  - refine (proj2 (proj2 (getitem_absent Example.ex_api "pkg._impl._Base" _)) _).
    + by vm_compute.
    + repeat constructor; intros [t Ht]; discriminate Ht.
Defined.

(** ** The traversal *)

Lemma is_private_dunder nm :
  startswith nm "__" = true → endswith nm "__" = true → is_private nm = false.
Proof. unfold is_private. intros -> ->. by destruct (startswith nm "_"). Qed.

Section TraversalFacts.
Variable g : graph.
Variable top_level_public_api : gset string.
Variable pkg : node.


Lemma filter_item_private item :
  is_private (name g item) = true → filter_item g item = Ok None.
Proof. unfold filter_item. by intros ->. Qed.

Lemma filter_item_renamed item :
  is_private (name g item) = false → renamed_on_import g item →
  filter_item g item = Ok None.
Proof.
  intros Hp (Ha & t & Ht & Hne). unfold filter_item.
  rewrite Hp, Ha, Ht. by rewrite decide_False.
Qed.

(** What passing the filters means. *)
Lemma filter_item_Some item final_item :
  filter_item g item = Ok (Some final_item) →
  is_private (name g item) = false
  ∧ ¬ renamed_on_import g item
  ∧ ((is_alias g item = false ∧ final_item = item)
     ∨ (is_alias g item = true ∧ final_target g item = Resolved final_item
        ∧ name g item = name g final_item)).
Proof.
  unfold filter_item, renamed_on_import.
  destruct (is_private (name g item)); [done|].
  destruct (is_alias g item) eqn:Ha.
  - destruct (final_target g item) as [t| |] eqn:Ht; [|done..].
    destruct (decide (name g item = name g t)) as [He|]; [|done].
    intros [= ->]. split; [done|]. split; [|by right].
    intros (_ & t' & [= <-] & Hne). done.
  - intros [= ->]. split; [done|]. split; [|by left].
    by intros [? _].
Qed.

Lemma pushed_entry seen flag item x f :
  (x, f) ∈ pushed g seen flag item → f = flag ∧ x ∈ all_members g item.
Proof.
  unfold pushed. rewrite elem_of_reverse, list_elem_of_fmap.
  intros (y & [= -> ->] & Hy). apply list_elem_of_filter in Hy as [_ Hy].
  done.
Qed.

Lemma loop_inv_init : loop_inv g top_level_public_api pkg (loop_init pkg).
Proof.
  split; [|split; [|split]]; simpl.
  - intros x f [= -> ->]%list_elem_of_singleton. constructor.
  - intros key ps. by rewrite lookup_empty.
  - intros o. by rewrite elem_of_empty.
  - intros o. by rewrite elem_of_empty.
Qed.

Lemma loop_inv_step st item force_public rest st' :
  loop_inv g top_level_public_api pkg st →
  ls_agenda st = (item, force_public) :: rest →
  loop_body g top_level_public_api st item force_public rest = Ok st' →
  loop_inv g top_level_public_api pkg st'.
Proof.
  intros (HA & HD & HO & HT) Hag. rewrite Hag in HA.
  assert (Hitem : agenda_entry g top_level_public_api pkg item force_public)
    by (apply HA; left).
  assert (Hrest : ∀ x f, (x, f) ∈ rest → agenda_entry g top_level_public_api pkg x f)
    by (intros; apply HA; by right).
  unfold loop_body.
  destruct (filter_item g item) as [[final_item|]|e] eqn:Hf; simpl; [| |done].
  2:{ intros [= <-]. by split; [|split; [|split]]. }
  set (tp := bool_decide (path g item ∈ top_level_public_api)).
  destruct (force_public || tp) eqn:Hpub; intros [= <-].
  2:{ split; [|by split; [|split]]. simpl.
      intros x f [Hx|Hx]%elem_of_app; [|by apply Hrest].
      apply pushed_entry in Hx as [-> Hx].
      replace false with (force_public || tp) by done.
      by eapply entry_member. }
  assert (Hrec : recorded g top_level_public_api pkg item final_item) by (by exists force_public).
  split; [|split; [|split]]; simpl.
  - intros x f [Hx|Hx]%elem_of_app; [|by apply Hrest].
    apply pushed_entry in Hx as [-> Hx].
    rewrite <- Hpub. by eapply entry_member.
  - intros key ps. destruct (decide (path g final_item = key)) as [<-|Hne].
    + rewrite lookup_insert_eq. intros [= <-]. split.
      { by destruct (default [] _). }
      intros p [Hp|Hp]%elem_of_app.
      * destruct (ls_data st !! path g final_item) as [ps0|] eqn:E;
          [|by apply elem_of_nil in Hp].
        by apply (HD _ _ E).
      * apply list_elem_of_singleton in Hp as ->. by exists item, final_item.
    + rewrite lookup_insert_ne by done. apply HD.
  - intros o Ho.
    assert (Hkeep : ∀ item0 ps0, ls_data st !! path g o = Some ps0 →
              path g item0 ∈ ps0 →
              ∃ ps, <[path g final_item :=
                       default [] (ls_data st !! path g final_item)
                       ++ [path g item]]> (ls_data st) !! path g o = Some ps
                    ∧ path g item0 ∈ ps).
    { intros item0 ps0 E Hin.
      destruct (decide (path g final_item = path g o)) as [Heq|Hne].
      - rewrite Heq, lookup_insert_eq, E. eexists. split; [done|].
        apply elem_of_app. by left.
      - rewrite lookup_insert_ne by done. eauto. }
    apply elem_of_union in Ho as [->%elem_of_singleton|Ho].
    + exists item. eexists. split; [done|]. rewrite lookup_insert_eq.
      split; [done|]. apply elem_of_app. right. by left.
    + destruct (HO o Ho) as (item0 & ps0 & Hr0 & E & Hin).
      destruct (Hkeep item0 ps0 E Hin) as (ps & ? & ?). by exists item0, ps.
  - intros o Ho.
    assert (Hold : o ∈ ls_toplevel st →
              o ∈ ({[final_item]} ∪ ls_objects st : gset node)
              ∧ ∃ item0, recorded g top_level_public_api pkg item0 o
                         ∧ path g item0 ∈ top_level_public_api).
    { intros Ho'. destruct (HT o Ho') as [? ?]. split; [|done].
      apply elem_of_union. by right. }
    destruct tp eqn:Etp; [|by apply Hold].
    apply elem_of_union in Ho as [->%elem_of_singleton|Ho]; [|by apply Hold].
    split; [apply elem_of_union; left; by apply elem_of_singleton|].
    exists item. split; [done|]. by apply bool_decide_eq_true in Etp.
Qed.

Lemma loop_inv_loop fuel st st' :
  loop_inv g top_level_public_api pkg st → loop g top_level_public_api fuel st = Some (Ok st') → loop_inv g top_level_public_api pkg st' ∧ ls_agenda st' = [].
Proof.
  revert st. induction fuel as [|fuel IH]; intros st Hinv; simpl.
  - destruct (ls_agenda st) as [|[item f] rest] eqn:E; [|done].
    by intros [= <-].
  - destruct (ls_agenda st) as [|[item f] rest] eqn:E; [by intros [= <-]|].
    destruct (loop_body g top_level_public_api st item f rest) as [st1|e] eqn:Hb; [|done].
    apply IH. by eapply loop_inv_step.
Qed.

Lemma new_PublicApi_inv fuel bm sm em api :
  new_PublicApi g top_level_public_api fuel pkg bm sm em = Some (Ok api) →
  ∃ st, loop_inv g top_level_public_api pkg st
        ∧ ls_agenda st = []
        ∧ api = PublicApi (ls_objects st) (ls_toplevel st) (ls_data st)
                  bm (sm ++ em).
Proof.
  unfold new_PublicApi.
  destruct (loop g top_level_public_api fuel (loop_init pkg))
    as [[st|e]|] eqn:E; [|done..].
  intros [= <-]. exists st.
  destruct (loop_inv_loop fuel _ st loop_inv_init E) as [? ?]. done.
Qed.

Lemma agenda_entry_route (ok : node → Prop) x f :
  (∀ item final_item, filter_item g item = Ok (Some final_item) → ok item) →
  agenda_entry g top_level_public_api pkg x f → route g pkg ok x.
Proof.
  intros Hok. induction 1 as [|item f final_item x _ IH Hf Hx].
  - constructor.
  - eapply route_member; eauto.
Qed.

(** Every path in the index is the path of an item that passed the
    filters, reached from the package through items that passed them, and
    it is filed under the path of that item's final target. *)
Lemma index_entries fuel bm sm em api key paths p :
  new_PublicApi g top_level_public_api fuel pkg bm sm em = Some (Ok api) →
  _data api !! key = Some paths → p ∈ paths →
  ∃ item final_item,
    recorded g top_level_public_api pkg item final_item
    ∧ path g item = p ∧ path g final_item = key.
Proof.
  intros (st & (_ & HD & _) & _ & ->)%new_PublicApi_inv Hk Hp. simpl in Hk.
  by apply (HD _ _ Hk).
Qed.

Lemma index_nonempty fuel bm sm em api key paths :
  new_PublicApi g top_level_public_api fuel pkg bm sm em = Some (Ok api) →
  _data api !! key = Some paths → paths ≠ [].
Proof.
  intros (st & (_ & HD & _) & _ & ->)%new_PublicApi_inv Hk. simpl in Hk.
  by apply (HD _ _ Hk).
Qed.
End TraversalFacts.

Lemma getitem_single api key p :
  _data api !! key = Some [p] → getitem api key = Ok (p, true).
Proof. unfold getitem. by intros ->. Qed.

Lemma getitem_many api key paths :
  _data api !! key = Some paths → 1 < length paths →
  getitem api key = Raise (AmbiguousPaths key paths).
Proof.
  unfold getitem. intros ->. destruct paths as [|p [|q paths]]; simpl; [lia..|done].
Qed.

(** C1, as the code has it: from a key of the index, with exactly one path
    recorded under it, lookup returns that recorded path (the public path of
    an item whose final target has the key as its path) with
    [needs_autoref=True]; with more than one path recorded it raises the
    ambiguity error carrying the key and every recorded path; and no key of
    a built index has an empty list, so these two cases are all. *)
Theorem getitem_recorded (g : graph) (top_level_public_api : gset string)
    (fuel : nat) (pkg : node) (bm sm em : list string) (api : _PublicApi)
    (key : string) (paths : list string) :
  new_PublicApi g top_level_public_api fuel pkg bm sm em = Some (Ok api) →
  _data api !! key = Some paths →
  (∀ p, paths = [p] →
     getitem api key = Ok (p, true)
     ∧ ∃ item final_item,
         recorded g top_level_public_api pkg item final_item
         ∧ path g item = p ∧ path g final_item = key)
  ∧ (1 < length paths → getitem api key = Raise (AmbiguousPaths key paths))
  ∧ (length paths = 1 ∨ 1 < length paths).
Proof.
  intros Hb Hk. split; [|split].
  - intros p ->. split; [by apply getitem_single|].
    eapply index_entries; [done..|]. by left.
  - by apply getitem_many.
  - pose proof (index_nonempty _ _ _ _ _ _ _ _ _ _ Hb Hk).
    destruct paths as [|p [|q paths]]; simpl; [done|by left|right; lia].
Qed.

Lemma getitem_recorded_witness :
  getitem Example.ex_api "pkg._impl.Foo" = Ok ("pkg.Foo", true)
  ∧ getitem Example.ex_api "pkg._impl.Dup"
    = Raise (AmbiguousPaths "pkg._impl.Dup" ["pkg.sub.Dup"; "pkg.Dup"]).
Proof.
  split.
  - refine (proj1 (proj1 (getitem_recorded Example.ex_graph Example.ex_top 30
              Example.pkg ["builtins"] [] ["ext"] Example.ex_api
              "pkg._impl.Foo" ["pkg.Foo"] _ _) "pkg.Foo" _));
      [by vm_compute | by vm_compute | reflexivity].
  - refine (proj1 (proj2 (getitem_recorded Example.ex_graph Example.ex_top 30
              Example.pkg ["builtins"] [] ["ext"] Example.ex_api
              "pkg._impl.Dup" ["pkg.sub.Dup"; "pkg.Dup"] _ _)) _);
      [by vm_compute | by vm_compute | simpl; lia].
Defined.

(** C1 as stated fails: [pkg._impl.Foo] is recorded with the one public path
    [pkg.Foo], and its lookup returns [pkg.Foo], not the key. *)
Lemma getitem_returns_key_counterexample :
  new_PublicApi Example.ex_graph Example.ex_top 30 Example.pkg
    ["builtins"] [] ["ext"] = Some (Ok Example.ex_api)
  ∧ ¬ (∀ paths,
         _data Example.ex_api !! "pkg._impl.Foo" = Some paths →
         length paths = 1 →
         getitem Example.ex_api "pkg._impl.Foo" = Ok ("pkg._impl.Foo", true)).
Proof.
  split; [by vm_compute|]. intros H.
  specialize (H ["pkg.Foo"]). vm_compute in H.
  specialize (H eq_refl eq_refl). discriminate H.
Qed.

(** ** Privacy: underscore names and renamed aliases *)

Section Privacy.
Variable g : graph.
Variable top_level_public_api : gset string.
Variable pkg : node.

(** A turn of the loop on an item the filters reject: the index, the
    object sets and the rest of the agenda are left as they were, and no
    member of the item is pushed. *)
Lemma loop_body_skip st item force_public rest :
  filter_item g item = Ok None →
  loop_body g top_level_public_api st item force_public rest
  = Ok (LoopState (ls_objects st) (ls_toplevel st) (ls_data st)
          ({[item]} ∪ ls_seen st) rest).
Proof. unfold loop_body. by intros ->. Qed.

Lemma filter_item_renamed_any item :
  renamed_on_import g item → filter_item g item = Ok None.
Proof.
  intros Hr. destruct (is_private (name g item)) eqn:Hp.
  - by apply filter_item_private.
  - by apply filter_item_renamed.
Qed.

Lemma recorded_route (ok : node → Prop) item final_item :
  (∀ i f, filter_item g i = Ok (Some f) → ok i) →
  recorded g top_level_public_api pkg item final_item →
  ok item ∧ route g pkg ok item.
Proof.
  intros Hok (f & He & Hf & _). split; [by eapply Hok|].
  by eapply agenda_entry_route.
Qed.

Lemma route_inv (ok : node → Prop) x :
  route g pkg ok x →
  x = pkg ∨ ∃ parent, ok parent ∧ x ∈ all_members g parent.
Proof. intros [|parent y _ Hok Hy]; [by left|]. right. by exists parent. Qed.

(** The path of an item that the filters reject, or that is a member only
    of items that the filters reject, is not in the index. *)
Lemma never_recorded (ok bad : node → Prop) fuel bm sm em api :
  (∀ i f, filter_item g i = Ok (Some f) → ok i) →
  (∀ i, bad i → ok i → False) →
  new_PublicApi g top_level_public_api fuel pkg bm sm em = Some (Ok api) →
  (∀ item key paths,
      bad item → unique_path g item →
      _data api !! key = Some paths → path g item ∉ paths)
  ∧ (∀ x key paths,
      x ≠ pkg → (∀ parent, x ∈ all_members g parent → bad parent) →
      unique_path g x →
      _data api !! key = Some paths → path g x ∉ paths).
Proof.
  intros Hok Hbad Hb. split.
  - intros item key paths Hi Hu Hk Hp.
    destruct (index_entries _ _ _ _ _ _ _ _ _ _ _ Hb Hk Hp)
      as (item' & final_item & Hrec & Hpath & _).
    apply Hu in Hpath as ->.
    destruct (recorded_route ok item final_item Hok Hrec) as [? _].
    by apply (Hbad item).
  - intros x key paths Hx Hparents Hu Hk Hp.
    destruct (index_entries _ _ _ _ _ _ _ _ _ _ _ Hb Hk Hp)
      as (item' & final_item & Hrec & Hpath & _).
    apply Hu in Hpath as ->.
    destruct (recorded_route ok x final_item Hok Hrec) as [_ Hr].
    apply route_inv in Hr as [->|(parent & Hp1 & Hp2)]; [done|].
    apply (Hbad parent); [by apply Hparents|done].
Qed.
End Privacy.

(** C3: an alias whose name differs from the name of its final target is
    treated as private.  The turn of the loop that pops it records nothing
    and pushes none of its members; and in the index that is built, every
    recorded path and every recorded object comes from an item that is not
    such an alias and that was reached from the package through members of
    items none of which is such an alias.  So the path of such an alias,
    and the path of an item that is a member only of such aliases, is in no
    list of the index (paths naming one item each). *)
Theorem renamed_alias_is_private (g : graph) (top_level_public_api : gset string)
    (pkg : node) :
  (∀ st item force_public rest,
      renamed_on_import g item →
      loop_body g top_level_public_api st item force_public rest
      = Ok (LoopState (ls_objects st) (ls_toplevel st) (ls_data st)
              ({[item]} ∪ ls_seen st) rest))
  ∧ (∀ fuel bm sm em api,
      new_PublicApi g top_level_public_api fuel pkg bm sm em = Some (Ok api) →
      (∀ key paths p,
          _data api !! key = Some paths → p ∈ paths →
          ∃ item, path g item = p
                  ∧ ¬ renamed_on_import g item
                  ∧ route g pkg (λ i, ¬ renamed_on_import g i) item)
      ∧ (∀ o, o ∈ _objects api →
          ∃ item, filter_item g item = Ok (Some o)
                  ∧ ¬ renamed_on_import g item
                  ∧ route g pkg (λ i, ¬ renamed_on_import g i) item)
      ∧ (∀ item key paths,
          renamed_on_import g item → unique_path g item →
          _data api !! key = Some paths → path g item ∉ paths)
      ∧ (∀ x key paths,
          x ≠ pkg →
          (∀ parent, x ∈ all_members g parent → renamed_on_import g parent) →
          unique_path g x →
          _data api !! key = Some paths → path g x ∉ paths)).
Proof.
  assert (Hok : ∀ i f, filter_item g i = Ok (Some f) → ¬ renamed_on_import g i).
  { intros i f Hf. by apply filter_item_Some in Hf as (_ & ? & _). }
  split.
  - intros st item f rest Hr. apply loop_body_skip.
    by apply filter_item_renamed_any.
  - intros fuel bm sm em api Hb. split.
    + intros key paths p Hk Hp.
      destruct (index_entries _ _ _ _ _ _ _ _ _ _ _ Hb Hk Hp)
        as (item & final_item & Hrec & <- & _).
      exists item. split; [done|].
      exact (recorded_route g top_level_public_api pkg
               (λ i, ¬ renamed_on_import g i) item final_item Hok Hrec).
    + split; [|by apply (never_recorded g top_level_public_api pkg
                           (λ i, ¬ renamed_on_import g i)
                           (renamed_on_import g) fuel bm sm em api Hok);
                     auto].
      intros o Ho.
      apply new_PublicApi_inv in Hb as (st & (_ & _ & HO & _) & _ & ->).
      destruct (HO o Ho) as (item & ps & Hrec & _).
      exists item. split; [by destruct Hrec as (? & _ & ? & _)|].
      exact (recorded_route g top_level_public_api pkg
               (λ i, ¬ renamed_on_import g i) item o Hok Hrec).
Qed.

Lemma renamed_alias_is_private_witness :
  loop_body Example.ex_graph Example.ex_top
    (LoopState ∅ ∅ ∅ {[Example.pkg]} []) Example.alias_tree_inference true []
  = Ok (LoopState ∅ ∅ ∅ ({[Example.alias_tree_inference]} ∪ {[Example.pkg]}) [])
  ∧ ∃ item, Example.ex_path item = "pkg.Foo"
            ∧ ¬ renamed_on_import Example.ex_graph item.
Proof.
  pose proof (renamed_alias_is_private Example.ex_graph Example.ex_top
                Example.pkg) as [Hstep Hidx].
  split.
  - refine (Hstep (LoopState ∅ ∅ ∅ {[Example.pkg]} [])
              Example.alias_tree_inference true [] _).
    split; [reflexivity|]. exists Example.fn_inference_mode.
    split; [reflexivity|]. simpl. discriminate.
  - destruct (Hidx 30 ["builtins"] [] ["ext"] Example.ex_api) as [Hp _];
      [by vm_compute|].
    destruct (Hp "pkg._impl.Foo" ["pkg.Foo"] "pkg.Foo") as (item & ? & ? & _);
      [by vm_compute | by left |].
    by exists item.
Defined.

(** C5: an item whose name starts with an underscore and is not a dunder
    name is skipped: the turn of the loop that pops it records nothing and
    pushes none of its members, and in the index that is built every
    recorded path and object comes from an item with no such name, reached
    from the package through members of items with no such name; so the path
    of an item so named, and the path of an item that is a member only of
    items so named, is in no list of the index (paths naming one item each).
    A name
    that starts and ends with a double underscore is not private, and an
    item so named that is not an alias passes the filters. *)
Theorem underscore_names_are_skipped (g : graph)
    (top_level_public_api : gset string) (pkg : node) :
  (∀ st item force_public rest,
      startswith (name g item) "_" = true →
      ¬ (startswith (name g item) "__" = true
         ∧ endswith (name g item) "__" = true) →
      loop_body g top_level_public_api st item force_public rest
      = Ok (LoopState (ls_objects st) (ls_toplevel st) (ls_data st)
              ({[item]} ∪ ls_seen st) rest))
  ∧ (∀ fuel bm sm em api,
      new_PublicApi g top_level_public_api fuel pkg bm sm em = Some (Ok api) →
      (∀ key paths p,
          _data api !! key = Some paths → p ∈ paths →
          ∃ item, path g item = p
                  ∧ is_private (name g item) = false
                  ∧ route g pkg (λ i, is_private (name g i) = false) item)
      ∧ (∀ o, o ∈ _objects api →
          ∃ item, filter_item g item = Ok (Some o)
                  ∧ is_private (name g item) = false
                  ∧ route g pkg (λ i, is_private (name g i) = false) item)
      ∧ (∀ item key paths,
          is_private (name g item) = true → unique_path g item →
          _data api !! key = Some paths → path g item ∉ paths)
      ∧ (∀ x key paths,
          x ≠ pkg →
          (∀ parent, x ∈ all_members g parent →
                     is_private (name g parent) = true) →
          unique_path g x →
          _data api !! key = Some paths → path g x ∉ paths))
  ∧ (∀ item,
      startswith (name g item) "__" = true →
      endswith (name g item) "__" = true →
      is_private (name g item) = false
      ∧ (is_alias g item = false → filter_item g item = Ok (Some item))).
Proof.
  assert (Hok : ∀ i f, filter_item g i = Ok (Some f) →
                 is_private (name g i) = false).
  { intros i f Hf. by apply filter_item_Some in Hf as (? & _). }
  split; [|split].
  - intros st item f rest Hu Hd. apply loop_body_skip, filter_item_private.
    unfold is_private. rewrite Hu.
    destruct (startswith (name g item) "__") eqn:E1; [|done].
    destruct (endswith (name g item) "__") eqn:E2; [|done]. by destruct Hd.
  - intros fuel bm sm em api Hb. split.
    + intros key paths p Hk Hp.
      destruct (index_entries _ _ _ _ _ _ _ _ _ _ _ Hb Hk Hp)
        as (item & final_item & Hrec & <- & _).
      exists item. split; [done|].
      exact (recorded_route g top_level_public_api pkg
               (λ i, is_private (name g i) = false) item final_item Hok Hrec).
    + split; [|by apply (never_recorded g top_level_public_api pkg
                           (λ i, is_private (name g i) = false)
                           (λ i, is_private (name g i) = true)
                           fuel bm sm em api Hok);
                     [intros i; congruence|]].
      intros o Ho.
      apply new_PublicApi_inv in Hb as (st & (_ & _ & HO & _) & _ & ->).
      destruct (HO o Ho) as (item & ps & Hrec & _).
      exists item. split; [by destruct Hrec as (? & _ & ? & _)|].
      exact (recorded_route g top_level_public_api pkg
               (λ i, is_private (name g i) = false) item o Hok Hrec).
  - intros item Hs He. pose proof (is_private_dunder _ Hs He) as Hp.
    split; [done|]. intros Ha. unfold filter_item. by rewrite Hp, Ha.
Qed.

Lemma underscore_names_are_skipped_witness :
  loop_body Example.ex_graph Example.ex_top
    (LoopState ∅ ∅ ∅ {[Example.pkg]} []) Example.mod_impl false []
  = Ok (LoopState ∅ ∅ ∅ ({[Example.mod_impl]} ∪ {[Example.pkg]}) [])
  ∧ (∃ item, Example.ex_path item = "pkg.Foo.__init__"
             ∧ is_private (Example.ex_name item) = false)
  ∧ filter_item Example.ex_graph Example.fn_init = Ok (Some Example.fn_init).
Proof.
  pose proof (underscore_names_are_skipped Example.ex_graph Example.ex_top
                Example.pkg) as (Hstep & Hidx & Hdunder).
  split; [|split].
  - refine (Hstep (LoopState ∅ ∅ ∅ {[Example.pkg]} [])
              Example.mod_impl false [] _ _);
      [reflexivity | by intros [? _]].
  - destruct (Hidx 30 ["builtins"] [] ["ext"] Example.ex_api) as [Hp _];
      [by vm_compute|].
    destruct (Hp "pkg._impl.Foo.__init__" ["pkg.Foo.__init__"]
                "pkg.Foo.__init__") as (item & ? & ? & _);
      [by vm_compute | by left |].
    by exists item.
  - by apply (Hdunder Example.fn_init).
Defined.

(** ** The pretty-printer and its hook *)

(** Induction on values, with the hypothesis on every part. *)
Lemma pyval_parts_ind (P : pyval → Prop) :
  P PyNone → (∀ s, P (PyStr s)) → (∀ n, P (PyInt n)) →
  (∀ m q, P (PyClass m q)) →
  (∀ args, Forall P args → P (PyLiteral args)) →
  (∀ origin args, P origin → Forall P args → P (PyGeneric origin args)) →
  (∀ args, Forall P args → P (PyUnion args)) →
  (∀ items, Forall P items → P (PyTuple items)) →
  (∀ items, Forall P items → P (PyList items)) →
  (∀ r, P (PyOpaque r)) →
  ∀ v, P v.
Proof.
  intros HNone HStr HInt HClass HLit HGen HUnion HTuple HList HOpaque.
  refine (fix F (v : pyval) : P v :=
            let all := fix G (l : list pyval) : Forall P l :=
                         match l with
                         | [] => @List.Forall_nil pyval P
                         | x :: l' => @List.Forall_cons pyval P x l' (F x) (G l')
                         end in
            match v with
            | PyNone => HNone
            | PyStr s => HStr s
            | PyInt n => HInt n
            | PyClass m q => HClass m q
            | PyLiteral args => HLit args (all args)
            | PyGeneric origin args => HGen origin args (F origin) (all args)
            | PyUnion args => HUnion args (all args)
            | PyTuple items => HTuple items (all items)
            | PyList items => HList items (all items)
            | PyOpaque r => HOpaque r
            end).
Qed.

Section PrettyFacts.
Variable wl_layout : pyval → list doc → doc.
Variable wl_render : doc → string.

Lemma pdoc_parts_plain custom l :
  Forall (λ v, pdoc wl_layout custom v = Ok (plain_doc wl_layout v)) l →
  pdoc_parts wl_layout custom l = Ok (List.map (plain_doc wl_layout) l).
Proof.
  induction 1 as [|v l Hv _ IH]; simpl; [done|]. by rewrite Hv, IH.
Qed.

(** When the hook claims no part of a value, the value is laid out
    plainly. *)
Lemma pdoc_plain custom v :
  (∀ w, custom w = Ok None) →
  pdoc wl_layout custom v = Ok (plain_doc wl_layout v).
Proof.
  intros Hc. induction v using pyval_parts_ind; simpl; rewrite Hc; try done.
  - fold (pdoc_parts wl_layout custom args). by rewrite pdoc_parts_plain.
  - fold (pdoc_parts wl_layout custom args). rewrite IHv.
    by rewrite pdoc_parts_plain.
  - fold (pdoc_parts wl_layout custom args). by rewrite pdoc_parts_plain.
  - fold (pdoc_parts wl_layout custom items). by rewrite pdoc_parts_plain.
  - fold (pdoc_parts wl_layout custom items). by rewrite pdoc_parts_plain.
Qed.

(** What the hook claims is taken as it is. *)
Lemma pdoc_claimed custom v d :
  custom v = Ok (Some d) → pdoc wl_layout custom v = Ok d.
Proof. intros H. destruct v; simpl; by rewrite H. Qed.

Lemma pdoc_raise custom v e :
  custom v = Raise e → pdoc wl_layout custom v = Raise e.
Proof. intros H. destruct v; simpl; by rewrite H. Qed.

Lemma pdoc_no_custom v :
  pdoc wl_layout no_custom v = Ok (plain_doc wl_layout v).
Proof. by apply pdoc_plain. Qed.

Lemma use_public_name_literal api ctx args :
  use_public_name wl_layout api ctx (PyLiteral args)
  = Ok (Some (plain_doc wl_layout (PyLiteral args))).
Proof. unfold use_public_name. by rewrite pdoc_no_custom. Qed.
End PrettyFacts.

(** C6: a value whose origin is [Literal] is displayed verbatim.  Whatever
    the index and the evaluation context, the hook answers with the plain
    document of the value, in which no part went through the hook, so that
    [wl.pdoc] and [wl.pformat] give the plain document and its rendering:
    no argument is evaluated as a type name or replaced by a public path. *)
Theorem literal_is_verbatim (wl_layout : pyval → list doc → doc)
    (wl_render : doc → string) (api : _PublicApi) (ctx : option context)
    (args : list pyval) :
  use_public_name wl_layout api ctx (PyLiteral args)
  = Ok (Some (plain_doc wl_layout (PyLiteral args)))
  ∧ pdoc wl_layout (use_public_name wl_layout api ctx) (PyLiteral args)
    = Ok (wl_layout (PyLiteral args) (List.map (plain_doc wl_layout) args))
  ∧ pformat wl_layout wl_render (use_public_name wl_layout api ctx)
      (PyLiteral args)
    = pformat wl_layout wl_render no_custom (PyLiteral args).
Proof.
  pose proof (use_public_name_literal wl_layout api ctx args) as H.
  split; [done|]. split.
  - by rewrite (pdoc_claimed _ _ _ _ H).
  - unfold pformat. by rewrite pdoc_no_custom, (pdoc_claimed _ _ _ _ H).
Qed.

(** [Literal["int", "str"]] next to [list["int"]], in a module where [int]
    names the builtin class. *)
Example literal_int_str :
  pformat Example.ex_layout Example.ex_render
    (use_public_name Example.ex_layout Example.ex_api (Some Example.ex_context))
    (PyLiteral [PyStr "int"; PyStr "str"])
  = Ok "Literal['int', 'str']"
  ∧ pformat Example.ex_layout Example.ex_render
      (use_public_name Example.ex_layout Example.ex_api (Some Example.ex_context))
      (PyGeneric (PyClass "builtins" "list") [PyStr "int"])
    = Ok "list[int]".
Proof. by vm_compute. Qed.

Section HookFacts.
Variable wl_layout : pyval → list doc → doc.
Variable api : _PublicApi.

Lemma resolve_forward_ref_None obj : resolve_forward_ref None obj = obj.
Proof. done. Qed.

(** The hook on a value that is not a [Literal] form. *)
Lemma use_public_name_other ctx obj :
  (∀ args, obj ≠ PyLiteral args) →
  use_public_name wl_layout api ctx obj
  = match class_not_NoneType (resolve_forward_ref ctx obj) with
    | Some (m, q) =>
        r ← getitem api (m +:+ "." +:+ q); Ok (Some (TextDoc r.1))
    | None => Ok None
    end.
Proof. intros H. destruct obj; try done. by destruct (H args). Qed.

Lemma existsb_false_Forall (f : pyval → bool) l :
  existsb f l = false → Forall (λ v, f v = false) l.
Proof.
  induction l as [|v l IH]; simpl; [constructor|].
  intros [? ?]%orb_false_iff. constructor; auto.
Qed.

(** With no context, a value in which no class other than [NoneType]
    occurs outside a [Literal] is laid out plainly. *)
Lemma pdoc_no_context_plain v :
  mentions_class v = false →
  pdoc wl_layout (use_public_name wl_layout api None) v
  = Ok (plain_doc wl_layout v).
Proof.
  induction v as [| s | n | m q | args _ | origin args IHo IHa | args IHa
                  | items IHa | items IHa | r] using pyval_parts_ind;
    intros Hm.
  - done.
  - done.
  - done.
  - change (bool_decide (is_Some (class_not_NoneType (PyClass m q))) = false)
      in Hm.
    apply bool_decide_eq_false in Hm.
    assert (Hc : class_not_NoneType (PyClass m q) = None).
    { destruct (class_not_NoneType (PyClass m q)) as [c|] eqn:E; [|done].
      destruct Hm. by exists c. }
    assert (Hu : use_public_name wl_layout api None (PyClass m q) = Ok None).
    { unfold use_public_name. by rewrite resolve_forward_ref_None, Hc. }
    change (pdoc wl_layout (use_public_name wl_layout api None) (PyClass m q))
      with (match use_public_name wl_layout api None (PyClass m q) with
            | Raise e => Raise e
            | Ok (Some d) => Ok d
            | Ok None => Ok (wl_layout (PyClass m q) [])
            end).
    by rewrite Hu.
  - by rewrite (pdoc_claimed _ _ _ _ (use_public_name_literal _ _ _ _)).
  - simpl in Hm. apply orb_false_iff in Hm as [Ho Ha].
    apply existsb_false_Forall in Ha.
    simpl. fold (pdoc_parts wl_layout (use_public_name wl_layout api None) args).
    rewrite (IHo Ho). rewrite pdoc_parts_plain; [done|].
    clear -IHa Ha. induction IHa as [|v l Hv _ IH]; [constructor|].
    apply Forall_cons in Ha as [? ?]. constructor; auto.
  - simpl in Hm. apply existsb_false_Forall in Hm.
    simpl. fold (pdoc_parts wl_layout (use_public_name wl_layout api None) args).
    rewrite pdoc_parts_plain; [done|].
    clear -IHa Hm. induction IHa as [|v l Hv _ IH]; [constructor|].
    apply Forall_cons in Hm as [? ?]. constructor; auto.
  - simpl in Hm. apply existsb_false_Forall in Hm.
    simpl. fold (pdoc_parts wl_layout (use_public_name wl_layout api None) items).
    rewrite pdoc_parts_plain; [done|].
    clear -IHa Hm. induction IHa as [|v l Hv _ IH]; [constructor|].
    apply Forall_cons in Hm as [? ?]. constructor; auto.
  - simpl in Hm. apply existsb_false_Forall in Hm.
    simpl. fold (pdoc_parts wl_layout (use_public_name wl_layout api None) items).
    rewrite pdoc_parts_plain; [done|].
    clear -IHa Hm. induction IHa as [|v l Hv _ IH]; [constructor|].
    apply Forall_cons in Hm as [? ?]. constructor; auto.
  - done.
Qed.
End HookFacts.

(** C2, as the code has it: the default of a parameter is pretty-printed
    with the hook given no context.  No string in it is evaluated or
    replaced, and a default in which no class other than [NoneType] occurs
    outside a [Literal] is displayed plainly; but a class other than
    [NoneType] that occurs in it is replaced by the path its lookup returns,
    as in an annotation. *)
Theorem default_without_context (wl_layout : pyval → list doc → doc)
    (wl_render : doc → string) (api : _PublicApi) (param : inspect_Parameter)
    (ctx : context) (v : pyval) :
  ip_default param = Value v →
  (∀ q, _pretty_param wl_layout wl_render (use_public_name wl_layout api)
          param ctx = Ok q →
        Ok (gp_default q)
        = (s ← pformat wl_layout wl_render
                 (use_public_name wl_layout api None) v; Ok (Some s)))
  ∧ (∀ s, use_public_name wl_layout api None (PyStr s) = Ok None)
  ∧ (mentions_class v = false →
     pformat wl_layout wl_render (use_public_name wl_layout api None) v
     = Ok (wl_render (plain_doc wl_layout v)))
  ∧ (∀ m q p autoref,
       class_not_NoneType v = Some (m, q) →
       getitem api (m +:+ "." +:+ q) = Ok (p, autoref) →
       pformat wl_layout wl_render (use_public_name wl_layout api None) v
       = Ok (wl_render (TextDoc p))).
Proof.
  intros Hd. split; [|split; [|split]].
  - intros q. unfold _pretty_param. rewrite Hd.
    destruct (_pretty_annotation _ _ _ _ _) as [a|e]; [|done]. simpl.
    destruct (pformat _ _ _ v) as [s|e]; [|done]. simpl. by intros [= <-].
  - done.
  - intros Hm. unfold pformat. by rewrite pdoc_no_context_plain.
  - intros m q p autoref Hc Hg. unfold pformat.
    erewrite pdoc_claimed; [done|].
    destruct v; try done. unfold use_public_name.
    rewrite resolve_forward_ref_None, Hc. simpl. by rewrite Hg.
Qed.

Lemma default_without_context_witness :
  pformat Example.ex_layout Example.ex_render
    (use_public_name Example.ex_layout Example.ex_api None)
    (PyTuple [PyStr "Pub"; PyNone; PyInt 3])
  = Ok "('Pub', None, 3)".
Proof.
  refine (proj1 (proj2 (proj2
            (default_without_context Example.ex_layout Example.ex_render
               Example.ex_api
               (InspectParameter "x" Empty KEYWORD_ONLY
                  (Value (PyTuple [PyStr "Pub"; PyNone; PyInt 3])))
               Example.ex_context (PyTuple [PyStr "Pub"; PyNone; PyInt 3])
               _))) _); reflexivity.
Defined.

(** C2 as stated fails: in [def f(cls=Pub)] the default is the class
    [pkg._impl.Pub], and its display is the public path [pkg.Pub] that the
    index gives, not the plain display of the class. *)
Lemma default_is_substituted_counterexample :
  ¬ (∀ q,
       _pretty_param Example.ex_layout Example.ex_render
         (use_public_name Example.ex_layout Example.ex_api)
         (InspectParameter "cls" Empty POSITIONAL_OR_KEYWORD
            (Value (PyClass "pkg._impl" "Pub")))
         Example.ex_context = Ok q →
       gp_default q
       = Some (Example.ex_render
                 (plain_doc Example.ex_layout (PyClass "pkg._impl" "Pub"))))
  ∧ use_public_name Example.ex_layout Example.ex_api None
      (PyClass "pkg._impl" "Pub") = Ok (Some (TextDoc "pkg.Pub")).
Proof.
  split; [|by vm_compute]. intros H.
  specialize (H (GriffeParameter "cls" None positional_or_keyword
                   (Some "pkg.Pub"))).
  vm_compute in H. specialize (H eq_refl). discriminate H.
Qed.

(** C10, as the code has it: the hook puts a public path in place of a
    value only when the value, or for a string under a context what the
    string evaluates to there, is a class other than [NoneType].  For a
    value that is not a [Literal] form: an answer of the hook is the text of
    the path that lookup of [module.qualname] returns for such a class; when
    the value (after that evaluation) is no such class the hook answers
    nothing; and [NoneType] itself is never replaced, whatever the index
    and the context. *)
Theorem substitution_only_for_classes (wl_layout : pyval → list doc → doc)
    (api : _PublicApi) (ctx : option context) (obj : pyval) :
  (∀ args, obj ≠ PyLiteral args) →
  (∀ d, use_public_name wl_layout api ctx obj = Ok (Some d) →
        ∃ m q p autoref,
          class_not_NoneType (resolve_forward_ref ctx obj) = Some (m, q)
          ∧ getitem api (m +:+ "." +:+ q) = Ok (p, autoref)
          ∧ d = TextDoc p)
  ∧ (class_not_NoneType (resolve_forward_ref ctx obj) = None →
     use_public_name wl_layout api ctx obj = Ok None)
  ∧ (ctx = None → class_not_NoneType obj = None →
     use_public_name wl_layout api ctx obj = Ok None)
  ∧ use_public_name wl_layout api ctx NoneType = Ok None.
Proof.
  intros Hl. rewrite (use_public_name_other _ _ _ _ Hl).
  split; [|split; [|split]].
  - intros d. destruct (class_not_NoneType _) as [[m q]|]; [|done].
    destruct (getitem api _) as [[p a]|e] eqn:Hg; [|done]. simpl.
    intros [= <-]. by exists m, q, p, a.
  - by intros ->.
  - intros -> Hc. by rewrite resolve_forward_ref_None, Hc.
  - by destruct ctx.
Qed.

Lemma substitution_only_for_classes_witness :
  use_public_name Example.ex_layout Example.ex_api (Some Example.ex_context)
    (PyStr "no such name") = Ok None
  ∧ use_public_name Example.ex_layout Example.ex_api (Some Example.ex_context)
      NoneType = Ok None
  ∧ getitem Example.ex_api "builtins.NoneType" = Ok ("NoneType", false).
Proof.
  pose proof (substitution_only_for_classes Example.ex_layout Example.ex_api
                (Some Example.ex_context) (PyStr "no such name")) as H.
  split; [|split].
  - refine (proj1 (proj2 (H _)) _); [discriminate | reflexivity].
  - refine (proj2 (proj2 (proj2 (H _)))). discriminate.
  - reflexivity.
Defined.

(** C10 as stated fails on a forward reference: the string ["Pub"] is not a
    class, and under the namespace of its module the hook replaces it by
    the public path [pkg.Pub]. *)
Lemma string_is_substituted_counterexample :
  class_not_NoneType (PyStr "Pub") = None
  ∧ ¬ (∀ d, use_public_name Example.ex_layout Example.ex_api
              (Some Example.ex_context) (PyStr "Pub") = Ok (Some d) →
            is_Some (class_not_NoneType (PyStr "Pub")))
  ∧ use_public_name Example.ex_layout Example.ex_api
      (Some Example.ex_context) (PyStr "Pub") = Ok (Some (TextDoc "pkg.Pub")).
Proof.
  split; [done|]. split; [|by vm_compute].
  intros H. specialize (H (TextDoc "pkg.Pub")). vm_compute in H.
  destruct (H eq_refl) as [x Hx]. discriminate Hx.
Qed.

(** C7: for a runtime object named [__init__] the stored signature keeps
    the parameters and has the empty sentinel as return annotation, however
    the callable was annotated; the empty annotation is rendered as nothing;
    so whenever [_pretty_fn] returns, the returns it sets is nothing, and it
    returns as soon as the parameters can be rendered. *)
Theorem init_has_no_return_annotation (wl_layout : pyval → list doc → doc)
    (wl_render : doc → string)
    (hook : option context → pyval → result (option doc))
    (sys_modules : string → option context) (empty_dict : context)
    (module_path : string) (obj : runtime_obj) :
  rt_name obj = Some "__init__" →
  on_function_instance obj = MkSignature (parameters (rt_signature obj)) Empty
  ∧ (∀ ctx, _pretty_annotation wl_layout wl_render hook
              (return_annotation (on_function_instance obj)) ctx = Ok None)
  ∧ (∀ ps r, _pretty_fn wl_layout wl_render hook sys_modules empty_dict
               module_path
               (on_function_instance obj) = Ok (ps, r) → r = None)
  ∧ (∀ ps, pretty_params wl_layout wl_render hook
             (parameters (rt_signature obj))
             (default empty_dict (sys_modules module_path)) = Ok ps →
           _pretty_fn wl_layout wl_render hook sys_modules empty_dict
               module_path
             (on_function_instance obj) = Ok (ps, None)).
Proof.
  intros Hn.
  assert (Hs : on_function_instance obj
               = MkSignature (parameters (rt_signature obj)) Empty).
  { unfold on_function_instance. rewrite Hn. by rewrite decide_True. }
  rewrite Hs. split; [done|]. split; [done|]. unfold _pretty_fn. simpl.
  split.
  - intros ps r. destruct (pretty_params _ _ _ _ _) as [ps'|e]; [|done].
    simpl. by intros [= _ <-].
  - by intros ps ->.
Qed.

Lemma init_has_no_return_annotation_witness :
  _pretty_fn Example.ex_layout Example.ex_render
    (use_public_name Example.ex_layout Example.ex_api)
    (λ _, Some Example.ex_context) (λ _, None) "pkg._impl"
    (on_function_instance
       (RuntimeObj (Some "__init__")
          (MkSignature
             [InspectParameter "self" Empty POSITIONAL_OR_KEYWORD Empty;
              InspectParameter "other" (Value (PyStr "Pub"))
                POSITIONAL_OR_KEYWORD (Value PyNone)]
             (Value NoneType))))
  = Ok ([GriffeParameter "self" None positional_or_keyword None;
         GriffeParameter "other" (Some "pkg.Pub") positional_or_keyword
           (Some "None")],
        None).
Proof.
  refine (proj2 (proj2 (proj2
            (init_has_no_return_annotation Example.ex_layout Example.ex_render
               (use_public_name Example.ex_layout Example.ex_api)
               (λ _, Some Example.ex_context) (λ _, None) "pkg._impl"
               (RuntimeObj (Some "__init__")
                  (MkSignature
                     [InspectParameter "self" Empty POSITIONAL_OR_KEYWORD Empty;
                      InspectParameter "other" (Value (PyStr "Pub"))
                        POSITIONAL_OR_KEYWORD (Value PyNone)]
                     (Value NoneType))) _))) _ _); by vm_compute.
Defined.

(** ** Base classes *)

Lemma dict_set_elem {V} (k : string) (v : V) (d : pydict V) kv :
  kv ∈ dict_set k v d → kv = (k, v) ∨ kv ∈ d.
Proof.
  induction d as [|[k' v'] d IH]; simpl.
  - intros ->%list_elem_of_singleton. by left.
  - destruct (decide (k = k')) as [->|Hne].
    + intros [->|H]%elem_of_cons; [by left|]. right. by right.
    + intros [->|H]%elem_of_cons; [right; by left|].
      destruct (IH H) as [?|?]; [by left|]. right. by right.
Qed.

Lemma dict_set_keys {V} (k : string) (v : V) (d : pydict V) k' :
  k' ∈ dict_keys (dict_set k v d) ↔ k' = k ∨ k' ∈ dict_keys d.
Proof.
  unfold dict_keys. induction d as [|[k0 v0] d IH]; simpl.
  - rewrite list_elem_of_singleton, elem_of_nil. tauto.
  - destruct (decide (k = k0)) as [->|Hne]; simpl.
    + rewrite !elem_of_cons. tauto.
    + rewrite !elem_of_cons, IH. tauto.
Qed.

Lemma dict_update_elem {V} (d d' : pydict V) kv :
  kv ∈ dict_update d d' → kv ∈ d ∨ kv ∈ d'.
Proof.
  unfold dict_update. revert d.
  induction d' as [|[k v] d' IH]; intros d; simpl; [by left|].
  intros [H|H]%IH.
  - apply dict_set_elem in H as [->|H]; [right; by left|by left].
  - right. by right.
Qed.

Lemma dict_update_keys {V} (d d' : pydict V) k :
  k ∈ dict_keys (dict_update d d') ↔ k ∈ dict_keys d ∨ k ∈ dict_keys d'.
Proof.
  unfold dict_update. revert d.
  induction d' as [|[k0 v0] d' IH]; intros d; simpl.
  - change (dict_keys (@nil (string * V))) with (@nil string).
    rewrite elem_of_nil. tauto.
  - rewrite IH, dict_set_keys.
    change (dict_keys ((k0, v0) :: d')) with (k0 :: dict_keys d').
    rewrite elem_of_cons. tauto.
Qed.

Section BasesFacts.
Variable g : graph.
Variable has_builtin : string → bool.
Variable api : _PublicApi.
Variable public_modules : gset string.

(** Whatever the loop puts in the mapping is a base to display. *)
Lemma collect_loop_sound recur cls bs acc d :
  (∀ b sub p a, recur b = Some (Ok sub) → (p, a) ∈ sub →
                displayed_base g has_builtin api public_modules b p a) →
  (∀ x, x ∈ bs → x ∈ _resolved_bases g has_builtin cls) →
  (∀ p a, (p, a) ∈ acc →
          displayed_base g has_builtin api public_modules cls p a) →
  collect_loop g recur api public_modules bs acc = Some (Ok d) →
  ∀ p a, (p, a) ∈ d →
         displayed_base g has_builtin api public_modules cls p a.
Proof.
  intros Hrec. revert acc.
  induction bs as [|[nm|b] bs IH]; intros acc Hbs Hacc; simpl.
  - by intros [= <-].
  - assert (Hbs' : ∀ x, x ∈ bs → x ∈ _resolved_bases g has_builtin cls)
      by (intros; apply Hbs; by right).
    case_bool_decide as Hb; apply IH; try done.
    intros p a [[= -> ->]|H]%dict_set_elem; [|by apply Hacc].
    apply displayed_builtin; [apply Hbs; by left|done].
  - assert (Hbs' : ∀ x, x ∈ bs → x ∈ _resolved_bases g has_builtin cls)
      by (intros; apply Hbs; by right).
    assert (Hb : ObjectBase b ∈ _resolved_bases g has_builtin cls)
      by (apply Hbs; by left).
    destruct (is_class g b) eqn:Hc; [|by apply IH].
    destruct (getitem api (path g b)) as [[p0 a0]|e] eqn:Hg.
    + apply IH; [done|].
      intros p a [[= -> ->]|H]%dict_set_elem; [|by apply Hacc].
      by eapply displayed_found.
    + destruct e; try done.
      destruct (recur b) as [[sub|e]|] eqn:Hr; [|done..].
      apply IH; [done|].
      intros p a [H|H]%dict_update_elem; [by apply Hacc|].
      eapply displayed_through; eauto.
Qed.

(** The loop keeps the keys it has and adds the keys of every base. *)
Lemma collect_loop_complete recur bs acc d :
  collect_loop g recur api public_modules bs acc = Some (Ok d) →
  (∀ k, k ∈ dict_keys acc → k ∈ dict_keys d)
  ∧ (∀ nm, BuiltinBase nm ∈ bs → "builtins" ∈ public_modules →
           nm ∈ dict_keys d)
  ∧ (∀ b p a, ObjectBase b ∈ bs → is_class g b = true →
              getitem api (path g b) = Ok (p, a) → p ∈ dict_keys d)
  ∧ (∀ b key, ObjectBase b ∈ bs → is_class g b = true →
              getitem api (path g b) = Raise (NotInPublicApiException key) →
              ∃ sub, recur b = Some (Ok sub)
                     ∧ ∀ k, k ∈ dict_keys sub → k ∈ dict_keys d).
Proof.
  revert acc. induction bs as [|[nm|b] bs IH]; intros acc; simpl.
  - intros [= <-]. split; [done|].
    split; [|split]; intros; by exfalso; eapply elem_of_nil.
  - case_bool_decide as Hb; intros (Hk & H1 & H2 & H3)%IH.
    + split; [intros k ?; apply Hk, dict_set_keys; by right|].
      split; [|split].
      * intros nm' [[= ->]|?]%elem_of_cons _; [|by apply H1].
        apply Hk, dict_set_keys. by left.
      * intros b p a [[=]|?]%elem_of_cons; by eapply H2.
      * intros b key [[=]|?]%elem_of_cons; by eapply H3.
    + split; [done|]. split; [|split].
      * intros nm' [[= ->]|?]%elem_of_cons ?; [done|by apply H1].
      * intros b p a [[=]|?]%elem_of_cons; by eapply H2.
      * intros b key [[=]|?]%elem_of_cons; by eapply H3.
  - destruct (is_class g b) eqn:Hc.
    2:{ intros (Hk & H1 & H2 & H3)%IH. split; [done|]. split; [|split].
        - intros nm [[=]|?]%elem_of_cons; by apply H1.
        - intros b' p a [[= ->]|?]%elem_of_cons ?; [congruence|by eapply H2].
        - intros b' key [[= ->]|?]%elem_of_cons ?; [congruence|by eapply H3]. }
    destruct (getitem api (path g b)) as [[p0 a0]|e] eqn:Hg.
    + intros (Hk & H1 & H2 & H3)%IH.
      split; [intros k ?; apply Hk, dict_set_keys; by right|].
      split; [|split].
      * intros nm [[=]|?]%elem_of_cons; by apply H1.
      * intros b' p a [[= ->]|?]%elem_of_cons ? Hg'; [|by eapply H2].
        rewrite Hg in Hg'. injection Hg' as <- <-.
        apply Hk, dict_set_keys. by left.
      * intros b' key [[= ->]|?]%elem_of_cons ? Hg'; [congruence|by eapply H3].
    + destruct e; try done.
      destruct (recur b) as [[sub|e]|] eqn:Hr; [|done..].
      intros (Hk & H1 & H2 & H3)%IH.
      split; [intros k ?; apply Hk, dict_update_keys; by left|].
      split; [|split].
      * intros nm [[=]|?]%elem_of_cons; by apply H1.
      * intros b' p a [[= ->]|?]%elem_of_cons ? Hg'; [congruence|by eapply H2].
      * intros b' key' [[= ->]|?]%elem_of_cons ? Hg'; [|by eapply H3].
        exists sub. split; [done|].
        intros k ?. apply Hk, dict_update_keys. by right.
Qed.

Lemma collect_bases_sound fuel cls d :
  _collect_bases g has_builtin fuel cls api public_modules = Some (Ok d) →
  ∀ p a, (p, a) ∈ d →
         displayed_base g has_builtin api public_modules cls p a.
Proof.
  revert cls d. induction fuel as [|fuel IH]; intros cls d; [done|].
  simpl. apply collect_loop_sound.
  - intros b sub p a Hb. by apply IH.
  - done.
  - intros p a H. by apply elem_of_nil in H.
Qed.

Lemma collect_bases_complete cls p a :
  displayed_base g has_builtin api public_modules cls p a →
  ∀ fuel d,
    _collect_bases g has_builtin fuel cls api public_modules = Some (Ok d) →
    p ∈ dict_keys d.
Proof.
  induction 1 as [cls nm Hb Hpm | cls b p a Hb Hc Hg
                  | cls b key p a Hb Hc Hg _ IH];
    intros [|fuel] d; try done; simpl;
    intros (_ & H1 & H2 & H3)%collect_loop_complete.
  - by apply H1.
  - by eapply H2.
  - destruct (H3 b key Hb Hc Hg) as (sub & Hsub & Hk).
    apply Hk. by eapply IH.
Qed.

(** A class whose one base is a class that is not public and whose one
    base in turn is found by lookup. *)
Lemma collect_bases_through cls mid pub key p a fuel :
  _resolved_bases g has_builtin cls = [ObjectBase mid] →
  is_class g mid = true →
  getitem api (path g mid) = Raise (NotInPublicApiException key) →
  _resolved_bases g has_builtin mid = [ObjectBase pub] →
  is_class g pub = true →
  getitem api (path g pub) = Ok (p, a) →
  _collect_bases g has_builtin (S (S fuel)) cls api public_modules
  = Some (Ok [(p, a)]).
Proof.
  intros Hcls Hmid Hgm Hm Hpub Hgp.
  change (collect_loop g
            (λ b, collect_loop g
                    (λ b', _collect_bases g has_builtin fuel b' api
                             public_modules)
                    api public_modules (_resolved_bases g has_builtin b) [])
            api public_modules (_resolved_bases g has_builtin cls) []
          = Some (Ok [(p, a)])).
  rewrite Hcls. simpl. rewrite Hmid, Hgm, Hm. simpl.
  by rewrite Hpub, Hgp.
Qed.
End BasesFacts.

(** C4, as the code has it: a base that resolves to a class is recorded
    under the path its lookup returns, with the flag its lookup returns,
    whenever the lookup succeeds (through the index or through the builtin
    and public-module prefixes); it is replaced by the bases collected for
    it, recursively, exactly when its lookup raises the not-public
    exception.  So the mapping returned for a class holds only bases to
    display, holds every base to display, and a class whose one base [mid]
    is not public and has the one base [pub] found under [p] gets
    [{p: autoref}]. *)
Theorem bases_are_flattened (g : graph) (has_builtin : string → bool)
    (api : _PublicApi) (public_modules : gset string) (cls : node) :
  (∀ fuel d,
      _collect_bases g has_builtin fuel cls api public_modules = Some (Ok d) →
      (∀ p a, (p, a) ∈ d →
              displayed_base g has_builtin api public_modules cls p a)
      ∧ (∀ p a, displayed_base g has_builtin api public_modules cls p a →
                p ∈ dict_keys d))
  ∧ (∀ mid pub key p a fuel,
      _resolved_bases g has_builtin cls = [ObjectBase mid] →
      is_class g mid = true →
      getitem api (path g mid) = Raise (NotInPublicApiException key) →
      _resolved_bases g has_builtin mid = [ObjectBase pub] →
      is_class g pub = true →
      getitem api (path g pub) = Ok (p, a) →
      _collect_bases g has_builtin (S (S fuel)) cls api public_modules
      = Some (Ok [(p, a)])).
Proof.
  split.
  - intros fuel d Hd. split.
    + by eapply collect_bases_sound.
    + intros p a Hp. by eapply collect_bases_complete.
  - intros. by eapply collect_bases_through.
Qed.

Lemma bases_are_flattened_witness :
  displayed_base Example.ex_graph Example.ex_has_builtin Example.ex_api
    {["ext"]} Example.cls_Foo "pkg.Pub" true
  ∧ _collect_bases Example.ex_graph Example.ex_has_builtin 2 Example.cls_Foo
      Example.ex_api {["ext"]} = Some (Ok [("pkg.Pub", true)]).
Proof.
  pose proof (bases_are_flattened Example.ex_graph Example.ex_has_builtin
                Example.ex_api {["ext"]} Example.cls_Foo) as [Hall Hmid].
  split.
  - refine (proj1 (Hall 3 [("pkg.Pub", true)] _) "pkg.Pub" true _);
      [by vm_compute | by left].
  - refine (Hmid Example.cls_Base Example.cls_Pub "pkg._impl._Base"
              "pkg.Pub" true 0 _ _ _ _ _ _); by vm_compute.
Defined.

(** C4 as stated fails on a base outside the index that a public-module
    prefix covers: [Bar(ext.Thing)] has the base [ext.Thing], a class that
    is not in the index, and with [ext] as public module the base is
    displayed as [ext.Thing] without autoref, not replaced by its own
    (here: no) bases. *)
Lemma base_outside_index_counterexample :
  _resolved_bases Example.ex_graph Example.ex_has_builtin Example.cls_Bar
  = [ObjectBase Example.cls_Thing]
  ∧ is_class Example.ex_graph Example.cls_Thing = true
  ∧ _data Example.ex_api !! Example.ex_path Example.cls_Thing = None
  ∧ _collect_bases Example.ex_graph Example.ex_has_builtin 5 Example.cls_Bar
      Example.ex_api {["ext"]} = Some (Ok [("ext.Thing", false)])
  ∧ ¬ (_collect_bases Example.ex_graph Example.ex_has_builtin 5
         Example.cls_Bar Example.ex_api {["ext"]}
       = _collect_bases Example.ex_graph Example.ex_has_builtin 5
           Example.cls_Thing Example.ex_api {["ext"]}).
Proof.
  split; [by vm_compute|]. split; [by vm_compute|]. split; [by vm_compute|].
  split; [by vm_compute|]. vm_compute. discriminate.
Qed.

(** A builtin base is displayed only when [builtins] is a public module. *)
Example builtin_base :
  _collect_bases Example.ex_graph Example.ex_has_builtin 1 Example.cls_Dup
    Example.ex_api {["ext"; "builtins"]} = Some (Ok [("int", false)])
  ∧ _collect_bases Example.ex_graph Example.ex_has_builtin 1 Example.cls_Dup
      Example.ex_api {["ext"]} = Some (Ok []).
Proof. by vm_compute. Qed.

(** ** Source links *)

Section SourceLinkFacts.
Variable g : graph.
Variable relative_to : string → string → option string.
Variable git : git_info.
Variable repo_url : option string.

Lemma source_url_known obj u :
  known_location g obj →
  source_url g relative_to git repo_url obj = Ok u → is_Some u.
Proof.
  intros ([s Hs] & [e He] & [fp Hf]). unfold source_url.
  rewrite Hs, He, Hf.
  destruct (_get_repo_url git repo_url) as [r|x]; [|done]. simpl.
  destruct (relative_to fp r.1); [|done]. intros [= <-]. by eexists.
Qed.

Lemma source_url_Some obj url :
  source_url g relative_to git repo_url obj = Ok (Some url) →
  known_location g obj.
Proof.
  unfold source_url, known_location.
  destruct (lineno g obj), (endlineno g obj), (filepath g obj);
    first [done | intros _; by repeat split].
Qed.

(** Only objects of the list get a URL, and each of them with a known
    location gets one. *)
Lemma attach_urls_spec objs acc urls :
  attach_urls g relative_to git repo_url objs acc = Ok urls →
  (∀ o url, urls !! o = Some url →
            acc !! o = Some url ∨ (o ∈ objs ∧ known_location g o))
  ∧ (∀ o, is_Some (acc !! o) → is_Some (urls !! o))
  ∧ (∀ o, o ∈ objs → known_location g o → is_Some (urls !! o)).
Proof.
  revert acc. induction objs as [|obj objs IH]; intros acc; simpl.
  - intros [= <-]. split; [by left|]. split; [done|].
    intros o H. by apply elem_of_nil in H.
  - destruct (source_url g relative_to git repo_url obj) as [u|e] eqn:Hu;
      [|done]. simpl. intros (H1 & H2 & H3)%IH.
    assert (Hacc : ∀ o, is_Some (acc !! o) →
              is_Some (match u with
                       | Some url => <[obj:=url]> acc
                       | None => acc
                       end !! o)).
    { intros o Ho. destruct u as [url|]; [|done].
      destruct (decide (obj = o)) as [->|Hne].
      - rewrite lookup_insert_eq. by eexists.
      - by rewrite lookup_insert_ne. }
    split; [|split].
    + intros o url Ho. destruct (H1 o url Ho) as [Ha|[Hin Hk]].
      * destruct u as [url'|]; [|by left].
        destruct (decide (obj = o)) as [->|Hne].
        -- right. split; [by left|]. by eapply source_url_Some.
        -- rewrite lookup_insert_ne in Ha by done. by left.
      * right. split; [by right|done].
    + intros o Ho. by apply H2, Hacc.
    + intros o [->|Hin]%elem_of_cons Hk; [|by apply H3].
      apply H2. destruct (source_url_known _ _ Hk Hu) as [url ->].
      rewrite lookup_insert_eq. by eexists.
Qed.

End SourceLinkFacts.



(** With ["all"], the constructor of [Foo], public but not top-level, gets
    its link too. *)
Example source_links_all :
  (λ urls, urls !! Example.fn_init) <$>
    source_links_result_of
      (source_links Example.ex_graph Example.ex_relative_to Example.ex_git
         Example.ex_repo_url SourceAll Example.ex_api)
  = Some (Some "https://github.com/org/pkg/blob/abc123/pkg/_impl.py#L8-9").
Proof. by vm_compute. Qed.

(** ** Termination of the traversal *)

Section Termination.
Variable g : graph.
Variable top_level_public_api : gset string.
Variable U : gset node.

Lemma pushed_unseen seen flag item e :
  e ∈ pushed g seen flag item → e.1 ∈ all_members g item ∧ e.1 ∉ seen.
Proof.
  unfold pushed. rewrite elem_of_reverse, list_elem_of_fmap.
  intros (y & -> & Hy). apply list_elem_of_filter in Hy as [? ?]. done.
Qed.




End Termination.



(** ** Termination of the base-class recursion *)

Section BasesTermination.
Variable g : graph.
Variable has_builtin : string → bool.
Variable api : _PublicApi.
Variable public_modules : gset string.

Lemma collect_loop_runs recur bs acc :
  (∀ b, ObjectBase b ∈ bs → is_class g b = true → is_Some (recur b)) →
  is_Some (collect_loop g recur api public_modules bs acc).
Proof.
  revert acc. induction bs as [|[nm|b] bs IH]; intros acc Hrec; simpl.
  - by eexists.
  - case_bool_decide; apply IH; intros; apply Hrec; by try right.
  - assert (Hrest : ∀ b', ObjectBase b' ∈ bs → is_class g b' = true →
                      is_Some (recur b'))
      by (intros; apply Hrec; by try right).
    destruct (is_class g b) eqn:Hc; [|by apply IH].
    destruct (getitem api (path g b)) as [[p a]|e]; [by apply IH|].
    destruct e; try by eexists.
    destruct (Hrec b) as [[sub|e] ->]; [by left|done| |by eexists].
    by apply IH.
Qed.
End BasesTermination.

(** X2: when the classes can be ranked so that every class base has a lower
    rank than the class it is a base of, [_collect_bases] returns or raises
    within a recursion depth of the rank of the class plus one. *)
Theorem collect_bases_terminates (g : graph) (has_builtin : string → bool)
    (api : _PublicApi) (public_modules : gset string) (rank : node → nat) :
  (∀ cls b, ObjectBase b ∈ _resolved_bases g has_builtin cls →
            is_class g b = true → rank b < rank cls) →
  ∀ cls, is_Some (_collect_bases g has_builtin (S (rank cls)) cls api
                    public_modules).
Proof.
  intros Hrank.
  assert (H : ∀ n cls, rank cls < n →
                is_Some (_collect_bases g has_builtin n cls api public_modules)).
  { induction n as [|n IH]; intros cls Hlt; [lia|]. simpl.
    apply collect_loop_runs. intros b Hb Hc. apply IH.
    specialize (Hrank cls b Hb Hc). lia. }
  intros cls. apply H. lia.
Qed.

Lemma collect_bases_terminates_witness :
  is_Some (_collect_bases Example.ex_graph Example.ex_has_builtin
             (S (Example.ex_rank Example.cls_Foo)) Example.cls_Foo
             Example.ex_api {["ext"]}).
Proof.
  refine (collect_bases_terminates Example.ex_graph Example.ex_has_builtin
            Example.ex_api {["ext"]} Example.ex_rank _ Example.cls_Foo).
  intros cls b Hb _. unfold _resolved_bases in Hb.
  apply list_elem_of_omap in Hb as (bp & Hbp & Hres).
  destruct (decide (cls = 3)) as [->|?];
    [|destruct (decide (cls = 4)) as [->|?];
      [|destruct (decide (cls = 15)) as [->|?];
        [|destruct (decide (cls = 19)) as [->|?]]]].
  - apply list_elem_of_singleton in Hbp as ->. vm_compute in Hres.
    injection Hres as <-. vm_compute. lia.
  - apply list_elem_of_singleton in Hbp as ->. vm_compute in Hres.
    injection Hres as <-. vm_compute. lia.
  - apply list_elem_of_singleton in Hbp as ->. vm_compute in Hres.
    discriminate Hres.
  - apply list_elem_of_singleton in Hbp as ->. vm_compute in Hres.
    injection Hres as <-. vm_compute. lia.
  - exfalso. revert Hbp. simpl. unfold Example.ex_bases.
    do 20 (destruct cls as [|cls]; [by (try done; intros ?%elem_of_nil)|]).
    by intros ?%elem_of_nil.
Defined.


(** * Further properties of the code *)

(** ** What a successful lookup returns *)

Lemma builtin_fallback_Some ms key p a :
  builtin_fallback ms key = Some (p, a) →
  a = false ∧ ∃ m, m ∈ ms ∧ key = m +:+ "." +:+ p.
Proof.
  induction ms as [|m ms IH]; simpl; [done|].
  destruct (startswith key (m +:+ ".")) eqn:E.
  - intros [= <- <-]. split; [done|]. exists m. split; [by left|].
    apply startswith_inv in E as [t ->].
    by rewrite removeprefix_app, string_app_assoc.
  - intros (? & m' & ? & ?)%IH. split; [done|]. exists m'. split; [by right|done].
Qed.

Lemma public_fallback_Some ms key p a :
  public_fallback ms key = Some (p, a) →
  a = false ∧ p = key ∧ ∃ m t, m ∈ ms ∧ key = m +:+ "." +:+ t.
Proof.
  induction ms as [|m ms IH]; simpl; [done|].
  destruct (startswith key (m +:+ ".")) eqn:E.
  - intros [= <- <-]. split; [done|]. split; [done|].
    apply startswith_inv in E as [t ->]. exists m, t.
    split; [by left|]. by rewrite string_app_assoc.
  - intros (? & ? & m' & t & ? & ?)%IH. split; [done|]. split; [done|].
    exists m', t. split; [by right|done].
Qed.

(** X3: a lookup that returns gives [needs_autoref=True] exactly when the
    key is in the index, and then the path is the one path recorded under
    the key; otherwise the key is absent from the index and the path is the
    key without the prefix [m.] of a builtin module [m], or the key itself,
    which then starts with the name of a public module and a dot. *)
Theorem getitem_Ok_inv (api : _PublicApi) (key p : string) (autoref : bool) :
  getitem api key = Ok (p, autoref) →
  (autoref = true ∧ _data api !! key = Some [p])
  ∨ (autoref = false ∧ _data api !! key = None
     ∧ ((∃ m, m ∈ _builtin_modules api ∧ key = m +:+ "." +:+ p)
        ∨ (p = key
           ∧ ∃ m t, m ∈ _public_modules api ∧ key = m +:+ "." +:+ t))).
Proof.
  unfold getitem. destruct (_data api !! key) as [paths|] eqn:Hk.
  - destruct paths as [|p0 [|q paths]]; try done. intros [= <- <-]. by left.
  - intros H. right.
    destruct (builtin_fallback _ key) as [[p' a']|] eqn:Hb.
    { injection H as -> ->.
      apply builtin_fallback_Some in Hb as (-> & m & ? & ?).
      split; [done|]. split; [done|]. left. by exists m. }
    destruct (public_fallback _ key) as [[p' a']|] eqn:Hp; [|done].
    injection H as -> ->.
    apply public_fallback_Some in Hp as (-> & -> & m & t & ? & ?).
    split; [done|]. split; [done|]. right. split; [done|]. by exists m, t.
Qed.

Lemma getitem_Ok_inv_witness :
  _data Example.ex_api !! "pkg._impl.Pub" = Some ["pkg.Pub"].
Proof.
  destruct (getitem_Ok_inv Example.ex_api "pkg._impl.Pub" "pkg.Pub" true)
    as [[_ H]|[H _]]; [reflexivity | exact H | discriminate H].
Defined.

(** ** The signature that is displayed *)

Section PrettyFn.
Variable wl_layout : pyval → list doc → doc.
Variable wl_render : doc → string.
Variable hook : option context → pyval → result (option doc).

Lemma pretty_annotation_None a ctx r :
  _pretty_annotation wl_layout wl_render hook a ctx = Ok r →
  (r = None ↔ a = Empty).
Proof.
  destruct a as [|v]; simpl.
  - by intros [= <-].
  - destruct (pformat _ _ _ v); [|done]. simpl. by intros [= <-].
Qed.

Lemma pretty_param_keeps param ctx q :
  _pretty_param wl_layout wl_render hook param ctx = Ok q →
  gp_name q = ip_name param
  ∧ gp_kind q = _kind_map (ip_kind param)
  ∧ (gp_annotation q = None ↔ ip_annotation param = Empty)
  ∧ (gp_default q = None ↔ ip_default param = Empty).
Proof.
  unfold _pretty_param.
  destruct (_pretty_annotation _ _ _ _ ctx) as [a|e] eqn:Ha; [|done]. simpl.
  apply pretty_annotation_None in Ha.
  destruct (ip_default param) as [|v]; simpl.
  - by intros [= <-].
  - destruct (pformat _ _ _ v); [|done]. simpl. by intros [= <-].
Qed.

Lemma pretty_params_keep params ctx ps :
  pretty_params wl_layout wl_render hook params ctx = Ok ps →
  Forall2 (λ q param,
             gp_name q = ip_name param
             ∧ gp_kind q = _kind_map (ip_kind param)
             ∧ (gp_annotation q = None ↔ ip_annotation param = Empty)
             ∧ (gp_default q = None ↔ ip_default param = Empty))
    ps params.
Proof.
  revert ps. induction params as [|param params IH]; intros ps; simpl.
  - intros [= <-]. constructor.
  - destruct (_pretty_param _ _ _ param ctx) as [q|e] eqn:Hq; [|done]. simpl.
    destruct (pretty_params _ _ _ params ctx) as [qs|e]; [|done]. simpl.
    intros [= <-]. constructor; [by apply pretty_param_keeps in Hq|by apply IH].
Qed.
End PrettyFn.

(** X4: when [_pretty_fn] returns, the displayed parameters are the
    parameters of the signature, one for one and in the same order, each
    with its name and with its kind carried through [_kind_map], which sends
    different kinds to different kinds; a parameter shows no annotation
    exactly when it has none, and no default exactly when it has none; and
    the function shows no return annotation exactly when the signature has
    none. *)
Theorem pretty_fn_keeps_signature (wl_layout : pyval → list doc → doc)
    (wl_render : doc → string)
    (hook : option context → pyval → result (option doc))
    (sys_modules : string → option context) (empty_dict : context)
    (module_path : string) (signature : Signature)
    (ps : list griffe_Parameter) (r : option string) :
  _pretty_fn wl_layout wl_render hook sys_modules empty_dict module_path
    signature = Ok (ps, r) →
  Forall2 (λ q param,
             gp_name q = ip_name param
             ∧ gp_kind q = _kind_map (ip_kind param)
             ∧ (gp_annotation q = None ↔ ip_annotation param = Empty)
             ∧ (gp_default q = None ↔ ip_default param = Empty))
    ps (parameters signature)
  ∧ (r = None ↔ return_annotation signature = Empty)
  ∧ (∀ k k', _kind_map k = _kind_map k' → k = k').
Proof.
  unfold _pretty_fn.
  destruct (pretty_params _ _ _ _ _) as [qs|e] eqn:Hps; [|done]. simpl.
  destruct (_pretty_annotation _ _ _ _ _) as [a|e] eqn:Ha; [|done]. simpl.
  intros [= <- <-]. split; [by eapply pretty_params_keep|].
  split; [by eapply pretty_annotation_None|].
  by intros [] [].
Qed.

Lemma pretty_fn_keeps_signature_witness :
  Forall2 (λ q param,
             gp_name q = ip_name param
             ∧ gp_kind q = _kind_map (ip_kind param)
             ∧ (gp_annotation q = None ↔ ip_annotation param = Empty)
             ∧ (gp_default q = None ↔ ip_default param = Empty))
    [GriffeParameter "x" (Some "pkg.Pub") keyword_only (Some "3")]
    [InspectParameter "x" (Value (PyStr "Pub")) KEYWORD_ONLY (Value (PyInt 3))].
Proof.
  refine (proj1 (pretty_fn_keeps_signature Example.ex_layout Example.ex_render
            (use_public_name Example.ex_layout Example.ex_api)
            (λ _, Some Example.ex_context) (λ _, None) "pkg._impl"
            (MkSignature
               [InspectParameter "x" (Value (PyStr "Pub")) KEYWORD_ONLY
                  (Value (PyInt 3))]
               (Value (PyStr "Foo")))
            [GriffeParameter "x" (Some "pkg.Pub") keyword_only (Some "3")]
            (Some "pkg.Foo") _)).
  by vm_compute.
Defined.

(** ** The repository URL *)

(** X5: [_get_repo_url] reports a missing [repo_url] first, whatever git
    says; then a failure of either git command, whatever the URL; and only
    then the host.  With git in order, a URL on [github.com] or
    [gitlab.com], written with [https://] or with no scheme, gives the
    top-level directory and the URL without one trailing slash followed by
    [/blob/<commit>/]; a URL written with [http://] is refused as an
    unsupported host. *)
Theorem get_repo_url_cases (git : git_info) :
  _get_repo_url git None = Raise RepoUrlMissing
  ∧ (∀ url, git_head git = None ∨ git_toplevel git = None →
            _get_repo_url git (Some url) = Raise NotAGitRepository)
  ∧ (∀ commit top,
       git_head git = Some commit → git_toplevel git = Some top →
       (∀ host rest url,
          host = "github.com" ∨ host = "gitlab.com" →
          url = "https://" +:+ host +:+ rest ∨ url = host +:+ rest →
          _get_repo_url git (Some url)
          = Ok (top, removesuffix url "/" +:+ "/blob/" +:+ commit +:+ "/"))
       ∧ (∀ host rest,
            host = "github.com" ∨ host = "gitlab.com" →
            _get_repo_url git (Some (("https://" +:+ host +:+ rest) +:+ "/"))
            = Ok (top, ("https://" +:+ host +:+ rest)
                       +:+ "/blob/" +:+ commit +:+ "/"))
       ∧ (∀ rest, _get_repo_url git (Some ("http://" +:+ rest))
                  = Raise UnsupportedHost)).
Proof.
  split; [done|]. split.
  - intros url [H|H]; unfold _get_repo_url; rewrite H; [done|].
    by destruct (git_head git).
  - intros commit top Hc Ht.
    assert (Hhost : ∀ host rest url,
              host = "github.com" ∨ host = "gitlab.com" →
              url = "https://" +:+ host +:+ rest ∨ url = host +:+ rest →
              _get_repo_url git (Some url)
              = Ok (top, removesuffix url "/" +:+ "/blob/" +:+ commit +:+ "/")).
    { intros host rest url Hh Hu. unfold _get_repo_url. rewrite Hc, Ht.
      assert (Hraw : startswith
                       (removeprefix (removeprefix url "https://") "https://")
                       host = true).
      { destruct Hu as [->| ->].
        - rewrite removeprefix_app.
          replace (removeprefix (host +:+ rest) "https://")
            with (host +:+ rest) by (by destruct Hh as [->| ->]).
          apply startswith_app.
        - replace (removeprefix (host +:+ rest) "https://")
            with (host +:+ rest) by (by destruct Hh as [->| ->]).
          replace (removeprefix (host +:+ rest) "https://")
            with (host +:+ rest) by (by destruct Hh as [->| ->]).
          apply startswith_app. }
      destruct Hh as [->| ->]; rewrite Hraw; [done|].
      by rewrite orb_true_r. }
    split; [exact Hhost|]. split.
    + intros host rest Hh.
      rewrite (Hhost host (rest +:+ "/")); [by rewrite removesuffix_app|done|].
      left. by rewrite !string_app_assoc.
    + intros rest. unfold _get_repo_url. by rewrite Hc, Ht.
Qed.

Lemma get_repo_url_cases_witness :
  _get_repo_url Example.ex_git (Some "https://github.com/org/pkg/")
  = Ok ("/repo", "https://github.com/org/pkg/blob/abc123/")
  ∧ _get_repo_url (GitInfo None (Some "/repo")) (Some "https://github.com/org/pkg")
    = Raise NotAGitRepository.
Proof.
  pose proof (get_repo_url_cases Example.ex_git) as (_ & _ & H).
  pose proof (get_repo_url_cases (GitInfo None (Some "/repo"))) as (_ & Hgit & _).
  split.
  - refine (proj1 (proj2 (H "abc123" "/repo" _ _)) "github.com" "/org/pkg" _);
      [reflexivity | reflexivity | by left].
  - apply Hgit. by left.
Defined.

(** ** The links that are attached *)

Section SourceLinkFormat.
Variable g : graph.
Variable relative_to : string → string → option string.
Variable git : git_info.
Variable repo_url : option string.


Lemma attach_urls_values objs acc urls o url :
  attach_urls g relative_to git repo_url objs acc = Ok urls →
  urls !! o = Some url →
  acc !! o = Some url
  ∨ (o ∈ objs ∧ source_url g relative_to git repo_url o = Ok (Some url)).
Proof.
  revert acc. induction objs as [|obj objs IH]; intros acc; simpl.
  - intros [= <-]. by left.
  - destruct (source_url g relative_to git repo_url obj) as [u|e] eqn:Hu;
      [|done]. simpl. intros Ha Ho.
    destruct (IH _ Ha Ho) as [Hacc|[Hin Hs]].
    + destruct u as [url'|]; [|by left].
      destruct (decide (obj = o)) as [->|Hne].
      * rewrite lookup_insert_eq in Hacc. injection Hacc as ->.
        right. split; [by left|done].
      * rewrite lookup_insert_ne in Hacc by done. by left.
    + right. split; [by right|done].
Qed.

Lemma attach_urls_all objs acc urls o url :
  attach_urls g relative_to git repo_url objs acc = Ok urls →
  o ∈ objs → source_url g relative_to git repo_url o = Ok (Some url) →
  urls !! o = Some url.
Proof.
  intros Ha Ho Hs.
  destruct (attach_urls_spec g relative_to git repo_url objs acc urls Ha)
    as (_ & _ & H3).
  destruct (H3 o Ho) as [url' Hurl']; [by eapply source_url_Some|].
  destruct (attach_urls_values _ _ _ _ _ Ha Hurl') as [Hacc|[_ Hs']].
  - (* the value came from [acc]: follow the list to the turn of [o] *)
    clear H3. revert acc Ha Hacc Hurl'.
    induction objs as [|obj objs IH]; intros acc Ha Hacc Hurl';
      [by apply elem_of_nil in Ho|].
    simpl in Ha.
    destruct (source_url g relative_to git repo_url obj) as [u|e] eqn:Hu;
      [|done]. simpl in Ha.
    destruct (decide (obj = o)) as [->|Hne].
    + rewrite Hs in Hu. injection Hu as <-.
      destruct (attach_urls_values _ _ _ _ _ Ha Hurl') as [Hi|[_ Hs']].
      * rewrite lookup_insert_eq in Hi. by injection Hi as ->.
      * rewrite Hs in Hs'. by injection Hs' as ->.
    + apply elem_of_cons in Ho as [->|Ho]; [done|].
      destruct (attach_urls_values _ _ _ _ _ Ha Hurl') as [Hi|[_ Hs']].
      * eapply IH; [done|exact Ha|exact Hi|done].
      * rewrite Hs in Hs'. by injection Hs' as ->.
  - rewrite Hs in Hs'. by injection Hs' as ->.
Qed.

(** The loop stops at the first object with a known location when the
    repository cannot be found. *)
Lemma attach_urls_raises objs acc o e :
  _get_repo_url git repo_url = Raise e →
  o ∈ objs → known_location g o →
  attach_urls g relative_to git repo_url objs acc = Raise e.
Proof.
  intros He. revert acc. induction objs as [|obj objs IH]; intros acc Ho Hk;
    [by apply elem_of_nil in Ho|].
  simpl. unfold source_url at 1.
  destruct (lineno g obj) as [s|] eqn:Hs;
    [destruct (endlineno g obj) as [en|] eqn:Hen;
      [destruct (filepath g obj) as [fp|] eqn:Hfp|]|].
  - by rewrite He.
  - simpl. apply IH; [|done].
    apply elem_of_cons in Ho as [->|Ho]; [|done].
    destruct Hk as (_ & _ & [? Hk]). congruence.
  - simpl. apply IH; [|done].
    apply elem_of_cons in Ho as [->|Ho]; [|done].
    destruct Hk as (_ & [? Hk] & _). congruence.
  - simpl. apply IH; [|done].
    apply elem_of_cons in Ho as [->|Ho]; [|done].
    destruct Hk as ([? Hk] & _). congruence.
Qed.

Lemma attach_urls_nothing objs acc :
  (∀ o, o ∈ objs → ¬ known_location g o) →
  attach_urls g relative_to git repo_url objs acc = Ok acc.
Proof.
  revert acc. induction objs as [|obj objs IH]; intros acc Hno; [done|].
  simpl.
  assert (Hu : source_url g relative_to git repo_url obj = Ok None).
  { unfold source_url.
    destruct (lineno g obj) as [s|] eqn:Hs; [|done].
    destruct (endlineno g obj) as [en|] eqn:Hen; [|done].
    destruct (filepath g obj) as [fp|] eqn:Hfp; [|done].
    destruct (Hno obj); [by left|]. unfold known_location.
    rewrite Hs, Hen, Hfp. by repeat split. }
  rewrite Hu. simpl. apply IH. intros o ?. apply Hno. by right.
Qed.
End SourceLinkFormat.



(** X7: the repository is looked for only when there is something to link.
    When no selected object has a known location the loop stores nothing and
    raises nothing, whatever [repo_url] and git are; and when some selected
    object has one and [_get_repo_url] raises, the loop raises that
    exception. *)
Theorem source_links_need_repo_lazily (g : graph)
    (relative_to : string → string → option string) (git : git_info)
    (repo_url : option string) (mode : show_source_links) (api : _PublicApi) :
  ((∀ o, o ∈ api_iterable mode api → ¬ known_location g o) →
   source_links g relative_to git repo_url mode api = Ok ∅)
  ∧ (∀ o e,
       o ∈ api_iterable mode api → known_location g o →
       _get_repo_url git repo_url = Raise e →
       source_links g relative_to git repo_url mode api = Raise e).
Proof.
  unfold source_links. split.
  - apply attach_urls_nothing.
  - intros o e Ho Hk He. by eapply attach_urls_raises.
Qed.

Lemma source_links_need_repo_lazily_witness :
  source_links Example.ex_graph Example.ex_relative_to Example.ex_git None
    SourceNone Example.ex_api = Ok ∅
  ∧ source_links Example.ex_graph Example.ex_relative_to Example.ex_git None
      SourceToplevel Example.ex_api = Raise RepoUrlMissing.
Proof.
  split.
  - refine (proj1 (source_links_need_repo_lazily Example.ex_graph
                     Example.ex_relative_to Example.ex_git None SourceNone
                     Example.ex_api) _).
    intros o Ho. by apply elem_of_nil in Ho.
  - refine (proj2 (source_links_need_repo_lazily Example.ex_graph
                     Example.ex_relative_to Example.ex_git None SourceToplevel
                     Example.ex_api) Example.cls_Foo RepoUrlMissing _ _ _).
    + apply elem_of_elements. by vm_compute.
    + repeat split; by eexists.
    + reflexivity.
Defined.

(** X8: when both the ["toplevel"] and the ["all"] loop run to their end
    on a built index, every link stored for the top-level objects is stored,
    the same, among the links for all objects. *)
Theorem toplevel_links_among_all (g : graph)
    (top_level_public_api : gset string) (pkg : node)
    (relative_to : string → string → option string) (git : git_info)
    (repo_url : option string) (fuel : nat) (bm sm em : list string)
    (api : _PublicApi) (urls_top urls_all : gmap node string) :
  new_PublicApi g top_level_public_api fuel pkg bm sm em = Some (Ok api) →
  source_links g relative_to git repo_url SourceToplevel api = Ok urls_top →
  source_links g relative_to git repo_url SourceAll api = Ok urls_all →
  ∀ o url, urls_top !! o = Some url → urls_all !! o = Some url.
Proof.
  intros (st & (_ & _ & _ & HT) & _ & ->)%new_PublicApi_inv.
  unfold source_links, toplevel, iter_api. simpl. intros Ht Ha o url Ho.
  destruct (attach_urls_values _ _ _ _ _ _ _ _ _ Ht Ho) as [H|[Hin Hs]].
  { by rewrite lookup_empty in H. }
  eapply attach_urls_all; [exact Ha| |exact Hs].
  apply elem_of_elements. apply elem_of_elements in Hin. by apply HT.
Qed.

Lemma toplevel_links_among_all_witness :
  ∃ urls_all,
    source_links Example.ex_graph Example.ex_relative_to Example.ex_git
      Example.ex_repo_url SourceAll Example.ex_api = Ok urls_all
    ∧ urls_all !! Example.cls_Pub
      = Some "https://github.com/org/pkg/blob/abc123/pkg/_impl.py#L1-2".
Proof.
  eexists. split; [by vm_compute|].
  refine (toplevel_links_among_all Example.ex_graph Example.ex_top Example.pkg
            Example.ex_relative_to Example.ex_git Example.ex_repo_url 30
            ["builtins"] [] ["ext"] Example.ex_api _ _ _ _ _
            Example.cls_Pub _ _); by vm_compute.
Defined.

(** ** What the finished traversal has covered *)

Section CoverageFacts.
Variable g : graph.
Variable top_level_public_api : gset string.
Variable pkg : node.

Lemma in_index_step (objects : gset node) (data : gmap string (list string))
    o key p item final_item :
  in_index g objects data item final_item →
  in_index g ({[o]} ∪ objects) (<[key := default [] (data !! key) ++ [p]]> data)
    item final_item.
Proof.
  intros (Ho & paths & Hk & Hp). split; [apply elem_of_union; by right|].
  destruct (decide (key = path g final_item)) as [->|Hne].
  - rewrite lookup_insert_eq, Hk. eexists. split; [done|].
    apply elem_of_app. by left.
  - rewrite lookup_insert_ne by done. by exists paths.
Qed.

Lemma in_index_new (objects : gset node) (data : gmap string (list string))
    item final_item :
  in_index g ({[final_item]} ∪ objects)
    (<[path g final_item :=
         default [] (data !! path g final_item) ++ [path g item]]> data)
    item final_item.
Proof.
  split; [apply elem_of_union; left; by apply elem_of_singleton|].
  rewrite lookup_insert_eq. eexists. split; [done|].
  apply elem_of_app. right. by left.
Qed.

Lemma pushed_or_seen seen flag item y :
  y ∈ all_members g item → y ∈ seen ∨ (y, flag) ∈ pushed g seen flag item.
Proof.
  intros Hy. destruct (decide (y ∈ seen)) as [?|Hn]; [by left|]. right.
  unfold pushed. apply elem_of_reverse, list_elem_of_fmap.
  exists y. split; [done|]. by apply list_elem_of_filter.
Qed.

Lemma loop_inv_seen_init :
  loop_inv_seen g top_level_public_api pkg (loop_init pkg).
Proof.
  split; [|split; [|split]]; simpl.
  - right. exists false. by left.
  - intros x y Hx. by apply elem_of_empty in Hx.
  - intros x f Hx. by apply elem_of_empty in Hx.
  - intros key paths. by rewrite lookup_empty.
Qed.

Lemma loop_inv_seen_step st item force_public rest st' :
  loop_inv_seen g top_level_public_api pkg st →
  ls_agenda st = (item, force_public) :: rest →
  loop_body g top_level_public_api st item force_public rest = Ok st' →
  loop_inv_seen g top_level_public_api pkg st'.
Proof.
  intros (Hpkg & Hmem & Htop & Hkeys) Hag Hb.
  (* the agenda: what was on it is seen or still on it *)
  assert (Hkeep : ∀ y f, (y, f) ∈ ls_agenda st →
            y ∈ ({[item]} ∪ ls_seen st : gset node) ∨ (y, f) ∈ rest).
  { intros y f. rewrite Hag. intros [[= -> ->]|?]%elem_of_cons; [|by right].
    left. apply elem_of_union. left. by apply elem_of_singleton. }
  unfold loop_body in Hb.
  destruct (filter_item g item) as [[final_item|]|e] eqn:Hf; simpl in Hb;
    [| |done].
  - (* the item goes on *)
    set (tp := bool_decide (path g item ∈ top_level_public_api)) in *.
    set (seen' := {[item]} ∪ ls_seen st : gset node) in *.
    assert (Hmem' : ∀ flag x y, x ∈ seen' → passes g x →
              y ∈ all_members g x →
              y ∈ seen' ∨ ∃ f, (y, f) ∈ pushed g seen' flag item ++ rest).
    { intros flag x y Hx Hp Hy.
      apply elem_of_union in Hx as [->%elem_of_singleton|Hx].
      - destruct (pushed_or_seen seen' flag item y Hy) as [?|?]; [by left|].
        right. exists flag. apply elem_of_app. by left.
      - destruct (Hmem x y Hx Hp Hy) as [?|[f Hyf]].
        + left. apply elem_of_union. by right.
        + destruct (Hkeep y f Hyf) as [?|?]; [by left|].
          right. exists f. apply elem_of_app. by right. }
    assert (Hpkg' : ∀ flag, pkg ∈ seen'
                     ∨ ∃ f, (pkg, f) ∈ pushed g seen' flag item ++ rest).
    { intros flag. destruct Hpkg as [?|[f Hp]].
      - left. apply elem_of_union. by right.
      - destruct (Hkeep pkg f Hp) as [?|?]; [by left|].
        right. exists f. apply elem_of_app. by right. }
    destruct (force_public || tp) eqn:Hpub; injection Hb as <-;
      (split; [apply Hpkg'|split; [apply Hmem'|split]]); simpl.
    + intros x fx Hx Hfx Hxt.
      apply elem_of_union in Hx as [->%elem_of_singleton|Hx].
      * rewrite Hf in Hfx. injection Hfx as <-.
        assert (tp = true) as -> by (by apply bool_decide_eq_true).
        split; [apply elem_of_union; left; by apply elem_of_singleton|].
        apply in_index_new.
      * destruct (Htop x fx Hx Hfx Hxt) as [Ht Hi].
        split; [|by apply in_index_step].
        destruct tp; [apply elem_of_union; by right|done].
    + intros key paths.
      destruct (decide (path g final_item = key)) as [<-|Hne].
      * intros _. exists final_item. split; [|done].
        apply elem_of_union. left. by apply elem_of_singleton.
      * rewrite lookup_insert_ne by done. intros Hk.
        destruct (Hkeys key paths Hk) as (o & ? & ?). exists o.
        split; [apply elem_of_union; by right|done].
    + intros x fx Hx Hfx Hxt.
      apply elem_of_union in Hx as [->%elem_of_singleton|Hx];
        [|by apply Htop].
      apply orb_false_iff in Hpub as [_ Htp].
      apply bool_decide_eq_false in Htp. done.
    + apply Hkeys.
  - (* the item is skipped *)
    injection Hb as <-. split; [|split; [|split]]; simpl.
    + destruct Hpkg as [?|[f Hp]].
      * left. apply elem_of_union. by right.
      * destruct (Hkeep pkg f Hp) as [?|?]; [by left|]. right. by exists f.
    + intros x y Hx Hp Hy.
      apply elem_of_union in Hx as [->%elem_of_singleton|Hx].
      * destruct Hp as [fi Hfi]. congruence.
      * destruct (Hmem x y Hx Hp Hy) as [?|[f Hyf]].
        -- left. apply elem_of_union. by right.
        -- destruct (Hkeep y f Hyf) as [?|?]; [by left|]. right. by exists f.
    + intros x fx Hx Hfx Hxt.
      apply elem_of_union in Hx as [->%elem_of_singleton|Hx]; [congruence|].
      by apply Htop.
    + apply Hkeys.
Qed.

Lemma loop_inv_seen_loop fuel st st' :
  loop_inv_seen g top_level_public_api pkg st →
  loop g top_level_public_api fuel st = Some (Ok st') →
  loop_inv_seen g top_level_public_api pkg st'.
Proof.
  revert st. induction fuel as [|fuel IH]; intros st Hinv; simpl.
  - destruct (ls_agenda st) as [|[item f] rest] eqn:E; [|done].
    by intros [= <-].
  - destruct (ls_agenda st) as [|[item f] rest] eqn:E; [by intros [= <-]|].
    destruct (loop_body g top_level_public_api st item f rest) as [st1|e]
      eqn:Hb; [|done].
    apply IH. by eapply loop_inv_seen_step.
Qed.

(** When the loop is over, every item reached from the package through
    items that pass the filters has been seen. *)
Lemma route_seen st x :
  loop_inv_seen g top_level_public_api pkg st → ls_agenda st = [] →
  route g pkg (passes g) x → x ∈ ls_seen st.
Proof.
  intros (Hpkg & Hmem & _) Hag. rewrite Hag in Hpkg, Hmem.
  induction 1 as [|parent x _ IH Hp Hx].
  - destruct Hpkg as [?|[f Hf]]; [done|]. by apply elem_of_nil in Hf.
  - destruct (Hmem parent x IH Hp Hx) as [?|[f Hf]]; [done|].
    by apply elem_of_nil in Hf.
Qed.
End CoverageFacts.

Section TreeFacts.
Variable g : graph.
Variable top_level_public_api : gset string.
Variable pkg : node.

(** In a tree-shaped graph an item comes on the agenda with one flag
    only. *)
Lemma agenda_entry_functional x f f' :
  tree_shaped g pkg →
  agenda_entry g top_level_public_api pkg x f →
  agenda_entry g top_level_public_api pkg x f' → f = f'.
Proof.
  intros [Hroot Hparent] H. revert f'.
  induction H as [|item f0 final_item x _ IH Hf Hx]; intros f' H'.
  - inversion H' as [|item' f0' final_item' x' _ _ Hx']; [done|].
    by destruct (Hroot item').
  - inversion H' as [|item' f0' final_item' x' He' _ Hx']; subst.
    + by destruct (Hroot item).
    + assert (item' = item) as -> by (by eapply Hparent).
      by rewrite (IH f0' He').
Qed.

Lemma loop_inv_tree_init :
  loop_inv_tree g top_level_public_api pkg (loop_init pkg).
Proof. intros x f final_item Hx. by apply elem_of_empty in Hx. Qed.

Lemma loop_inv_tree_step st item force_public rest st' :
  tree_shaped g pkg →
  loop_inv g top_level_public_api pkg st →
  loop_inv_tree g top_level_public_api pkg st →
  ls_agenda st = (item, force_public) :: rest →
  loop_body g top_level_public_api st item force_public rest = Ok st' →
  loop_inv_tree g top_level_public_api pkg st'.
Proof.
  intros Htree (HA & _) Hinv Hag Hb.
  assert (Hitem : agenda_entry g top_level_public_api pkg item force_public)
    by (apply HA; rewrite Hag; by left).
  unfold loop_body in Hb.
  destruct (filter_item g item) as [[final_item|]|e] eqn:Hf; simpl in Hb;
    [| |done].
  - destruct (force_public || _) eqn:Hpub; injection Hb as <-;
      intros x f fx Hx He Hfx Hp; simpl in *.
    + apply elem_of_union in Hx as [->%elem_of_singleton|Hx].
      * rewrite Hf in Hfx. injection Hfx as <-. apply in_index_new.
      * apply in_index_step. by eapply Hinv.
    + apply elem_of_union in Hx as [->%elem_of_singleton|Hx];
        [|by eapply Hinv].
      rewrite (agenda_entry_functional _ _ _ Htree He Hitem) in Hp.
      congruence.
  - injection Hb as <-. intros x f fx Hx He Hfx Hp. simpl in *.
    apply elem_of_union in Hx as [->%elem_of_singleton|Hx]; [congruence|].
    by eapply Hinv.
Qed.

Lemma loop_inv_tree_loop fuel st st' :
  tree_shaped g pkg →
  loop_inv g top_level_public_api pkg st →
  loop_inv_tree g top_level_public_api pkg st →
  loop g top_level_public_api fuel st = Some (Ok st') →
  loop_inv_tree g top_level_public_api pkg st'.
Proof.
  intros Htree. revert st. induction fuel as [|fuel IH]; intros st H1 H2; simpl.
  - destruct (ls_agenda st) as [|[item f] rest] eqn:E; [|done].
    by intros [= <-].
  - destruct (ls_agenda st) as [|[item f] rest] eqn:E; [by intros [= <-]|].
    destruct (loop_body g top_level_public_api st item f rest) as [st1|e]
      eqn:Hb; [|done].
    apply IH; [by eapply loop_inv_step|by eapply loop_inv_tree_step].
Qed.

Lemma new_PublicApi_inv_seen fuel bm sm em api :
  new_PublicApi g top_level_public_api fuel pkg bm sm em = Some (Ok api) →
  ∃ st, loop g top_level_public_api fuel (loop_init pkg) = Some (Ok st)
        ∧ loop_inv_seen g top_level_public_api pkg st
        ∧ ls_agenda st = []
        ∧ api = PublicApi (ls_objects st) (ls_toplevel st) (ls_data st)
                  bm (sm ++ em).
Proof.
  unfold new_PublicApi.
  destruct (loop g top_level_public_api fuel (loop_init pkg))
    as [[st|e]|] eqn:E; [|done..].
  intros [= <-]. exists st. split; [done|].
  split; [by eapply loop_inv_seen_loop, E; apply loop_inv_seen_init|].
  split; [|done].
  by destruct (loop_inv_loop g top_level_public_api pkg fuel _ st
                 (loop_inv_init g top_level_public_api pkg) E).
Qed.

Lemma recorded_route_passes item final_item :
  recorded g top_level_public_api pkg item final_item →
  route g pkg (passes g) item.
Proof.
  intros (f & He & _). eapply agenda_entry_route; [|exact He].
  intros i fi Hi. by exists fi.
Qed.
End TreeFacts.

(** X9: the index and the objects of a built [_PublicApi] agree.  The path
    of every object that iteration yields is a key of the index, so its
    lookup can only return (with autoref) or raise the ambiguity error, never
    the not-public exception; every key of the index is the path of an
    object that iteration yields; and every top-level object is among the
    objects that iteration yields. *)
Theorem index_and_objects_agree (g : graph) (top_level_public_api : gset string)
    (pkg : node) (fuel : nat) (bm sm em : list string) (api : _PublicApi) :
  new_PublicApi g top_level_public_api fuel pkg bm sm em = Some (Ok api) →
  (∀ o, o ∈ iter_api api →
        (∃ p, getitem api (path g o) = Ok (p, true))
        ∨ (∃ paths, getitem api (path g o)
                    = Raise (AmbiguousPaths (path g o) paths)))
  ∧ (∀ key, is_Some (_data api !! key) →
            ∃ o, o ∈ iter_api api ∧ path g o = key)
  ∧ (∀ o, o ∈ toplevel api → o ∈ iter_api api).
Proof.
  intros Hb.
  destruct (new_PublicApi_inv_seen _ _ _ _ _ _ _ _ Hb)
    as (st & _ & (_ & _ & _ & Hkeys) & _ & Hapi).
  destruct (new_PublicApi_inv _ _ _ _ _ _ _ _ Hb)
    as (st' & (_ & _ & HO & HT) & _ & Hapi').
  split; [|split].
  - rewrite Hapi'. unfold iter_api. simpl. intros o Ho.
    destruct (HO o Ho) as (item & ps & _ & Hk & Hin).
    unfold getitem. simpl. rewrite Hk.
    destruct ps as [|p [|q ps]]; [by apply elem_of_nil in Hin| |].
    + left. by exists p.
    + right. by eexists.
  - rewrite Hapi. unfold iter_api. simpl. intros key [paths Hk].
    by apply (Hkeys key paths).
  - rewrite Hapi'. unfold toplevel, iter_api. simpl. intros o Ho.
    by apply HT.
Qed.

Lemma index_and_objects_agree_witness :
  (∃ p, getitem Example.ex_api (Example.ex_path Example.fn_init) = Ok (p, true))
  ∨ (∃ paths, getitem Example.ex_api (Example.ex_path Example.fn_init)
              = Raise (AmbiguousPaths (Example.ex_path Example.fn_init) paths)).
Proof.
  refine (proj1 (index_and_objects_agree Example.ex_graph Example.ex_top
                   Example.pkg 30 ["builtins"] [] ["ext"] Example.ex_api _)
            Example.fn_init _); by vm_compute.
Defined.

(** X10: no declared top-level path is missed.  An item reached from the
    package through members of items that pass the filters, that passes the
    filters itself and whose path is in the top-level set, is recorded in
    the built index: its final target is among the top-level objects and
    among the objects, and the item's path is listed under the path of its
    final target. *)
Theorem toplevel_items_are_recorded (g : graph)
    (top_level_public_api : gset string) (pkg : node) (fuel : nat)
    (bm sm em : list string) (api : _PublicApi) (item final_item : node) :
  new_PublicApi g top_level_public_api fuel pkg bm sm em = Some (Ok api) →
  route g pkg (passes g) item →
  filter_item g item = Ok (Some final_item) →
  path g item ∈ top_level_public_api →
  final_item ∈ toplevel api
  ∧ in_index g (_objects api) (_data api) item final_item.
Proof.
  intros Hb Hr Hf Ht.
  destruct (new_PublicApi_inv_seen _ _ _ _ _ _ _ _ Hb)
    as (st & _ & Hinv & Hag & ->).
  pose proof (route_seen _ _ _ _ _ Hinv Hag Hr) as Hseen.
  destruct Hinv as (_ & _ & Htop & _).
  by apply (Htop item final_item).
Qed.

Lemma toplevel_items_are_recorded_witness :
  Example.cls_Foo ∈ toplevel Example.ex_api
  ∧ in_index Example.ex_graph (_objects Example.ex_api) (_data Example.ex_api)
      Example.alias_Foo Example.cls_Foo.
Proof.
  refine (toplevel_items_are_recorded Example.ex_graph Example.ex_top
            Example.pkg 30 ["builtins"] [] ["ext"] Example.ex_api
            Example.alias_Foo Example.cls_Foo _ _ _ _).
  - by vm_compute.
  - eapply route_member; [apply route_root| |].
    + by exists Example.pkg.
    + by left.
  - reflexivity.
  - by vm_compute.
Defined.

(** X11: in a tree-shaped graph (every node a member of at most one node,
    the package of none) the built index holds exactly the public items: a
    path is listed under a key if and only if it is the path of an item that
    was reached through items passing the filters, passes them itself, is
    public by its own path or by inheritance from a public ancestor, and has
    a final target whose path is the key; and the objects are exactly the
    final targets of those items. *)
Theorem index_is_exact_on_trees (g : graph) (top_level_public_api : gset string)
    (pkg : node) (fuel : nat) (bm sm em : list string) (api : _PublicApi) :
  tree_shaped g pkg →
  new_PublicApi g top_level_public_api fuel pkg bm sm em = Some (Ok api) →
  (∀ key p,
      (∃ paths, _data api !! key = Some paths ∧ p ∈ paths)
      ↔ (∃ item final_item,
            recorded g top_level_public_api pkg item final_item
            ∧ path g item = p ∧ path g final_item = key))
  ∧ (∀ o, o ∈ iter_api api
          ↔ ∃ item, recorded g top_level_public_api pkg item o).
Proof.
  intros Htree Hb.
  destruct (new_PublicApi_inv_seen _ _ _ _ _ _ _ _ Hb)
    as (st & Hloop & Hseen & Hag & Hapi).
  assert (Htr : loop_inv_tree g top_level_public_api pkg st).
  { eapply loop_inv_tree_loop; [done| | |exact Hloop].
    - apply loop_inv_init.
    - apply loop_inv_tree_init. }
  assert (Hall : ∀ item final_item,
            recorded g top_level_public_api pkg item final_item →
            in_index g (_objects api) (_data api) item final_item).
  { intros item final_item Hrec. rewrite Hapi. simpl.
    pose proof (recorded_route_passes _ _ _ _ _ Hrec) as Hr.
    pose proof (route_seen _ _ _ _ _ Hseen Hag Hr) as Hs.
    destruct Hrec as (f & He & Hf & Hp). by eapply Htr. }
  split.
  - intros key p. split.
    + intros (paths & Hk & Hp). by eapply index_entries.
    + intros (item & final_item & Hrec & <- & <-).
      by destruct (Hall item final_item Hrec) as [_ ?].
  - intros o. split.
    + intros Ho.
      destruct (new_PublicApi_inv _ _ _ _ _ _ _ _ Hb)
        as (st' & (_ & _ & HO & _) & _ & Hapi').
      rewrite Hapi' in Ho. unfold iter_api in Ho. simpl in Ho.
      destruct (HO o Ho) as (item & ps & Hrec & _). by exists item.
    + intros [item Hrec]. by destruct (Hall item o Hrec) as [? _].
Qed.

Lemma example_parent_of x p :
  x ∈ all_members Example.ex_graph p → ExampleTree.parent_of x = Some p.
Proof.
  simpl. unfold Example.ex_all_members.
  do 15 (destruct p as [|p];
         [intros H; repeat (apply elem_of_cons in H as [->|H]; [reflexivity|]);
          by apply elem_of_nil in H|]).
  intros H. by apply elem_of_nil in H.
Qed.

Lemma example_tree_shaped : tree_shaped Example.ex_graph Example.pkg.
Proof.
  split.
  - intros parent H. apply example_parent_of in H. discriminate H.
  - intros x parent parent' H H'.
    apply example_parent_of in H, H'. congruence.
Qed.

Lemma index_is_exact_on_trees_witness :
  (∃ paths, _data Example.ex_api !! "pkg._impl.Foo.__init__" = Some paths
            ∧ "pkg.Foo.__init__" ∈ paths)
  ↔ (∃ item final_item,
        recorded Example.ex_graph Example.ex_top Example.pkg item final_item
        ∧ path Example.ex_graph item = "pkg.Foo.__init__"
        ∧ path Example.ex_graph final_item = "pkg._impl.Foo.__init__").
Proof.
  refine (proj1 (index_is_exact_on_trees Example.ex_graph Example.ex_top
                   Example.pkg 30 ["builtins"] [] ["ext"] Example.ex_api
                   example_tree_shaped _)
            "pkg._impl.Foo.__init__" "pkg.Foo.__init__").
  by vm_compute.
Defined.

(** ** Which lookups a rendering makes, and what their failure does *)

Section Rendering.
Variable wl_layout : pyval → list doc → doc.
Variable api : _PublicApi.
Variable ctx : option context.

Lemma first_raise_app keys keys' :
  first_raise api (keys ++ keys')
  = match first_raise api keys with
    | Some e => Some e
    | None => first_raise api keys'
    end.
Proof.
  induction keys as [|k keys IH]; simpl; [done|].
  by destruct (getitem api k).
Qed.

(** [pdoc] on a value that the hook does not claim. *)
Lemma pdoc_unclaimed custom v :
  custom v = Ok None →
  pdoc wl_layout custom v
  = match pdoc_parts wl_layout custom (children v) with
    | Raise e => Raise e
    | Ok ds => Ok (wl_layout v ds)
    end.
Proof. intros H. destruct v; simpl; by rewrite H. Qed.

Lemma lookups_unclaimed v :
  (∀ args, v ≠ PyLiteral args) →
  class_not_NoneType (resolve_forward_ref ctx v) = None →
  lookups ctx v = flat_map (lookups ctx) (children v).
Proof.
  intros Hl Hc.
  destruct v as [| s | n | m q | args | o args | args | items | items | r];
    try (by destruct (Hl args));
    destruct ctx as [c|]; simpl in *; try rewrite Hc; try done;
    by destruct (bool_decide _).
Qed.

Lemma pdoc_parts_follow l :
  Forall (follows_lookups wl_layout api ctx) l →
  match first_raise api (flat_map (lookups ctx) l) with
  | Some e =>
      pdoc_parts wl_layout (use_public_name wl_layout api ctx) l = Raise e
  | None =>
      ∃ ds, pdoc_parts wl_layout (use_public_name wl_layout api ctx) l = Ok ds
  end.
Proof.
  induction 1 as [|v l Hv _ IH]; simpl; [by eexists|].
  rewrite first_raise_app. unfold follows_lookups in Hv.
  destruct (first_raise api (lookups ctx v)) as [e|].
  - by rewrite Hv.
  - destruct Hv as [d ->].
    destruct (first_raise api (flat_map (lookups ctx) l)) as [e|].
    + by rewrite IH.
    + destruct IH as [ds ->]. by eexists.
Qed.

Lemma pdoc_follows_lookups v : follows_lookups wl_layout api ctx v.
Proof.
  assert (Hnode : ∀ v, (∀ args, v ≠ PyLiteral args) →
            Forall (follows_lookups wl_layout api ctx) (children v) →
            follows_lookups wl_layout api ctx v).
  { clear v. intros v Hl Hch. unfold follows_lookups.
    pose proof (use_public_name_other wl_layout api ctx v Hl) as Hu.
    destruct (class_not_NoneType (resolve_forward_ref ctx v))
      as [[m q]|] eqn:Hc.
    - assert (Hk : lookups ctx v = [m +:+ "." +:+ q]).
      { destruct v as [| s | n | m' q' | args | o args | args | items | items
                       | r];
          try (by destruct (Hl args));
          destruct ctx as [c|]; simpl in *; try rewrite Hc; try done;
          by destruct (bool_decide _). }
      rewrite Hk. simpl.
      destruct (getitem api (m +:+ "." +:+ q)) as [r|e]; simpl in Hu.
      + eexists. by apply pdoc_claimed.
      + by apply pdoc_raise.
    - rewrite (lookups_unclaimed v Hl Hc), (pdoc_unclaimed _ v Hu).
      pose proof (pdoc_parts_follow _ Hch) as Hp.
      destruct (first_raise api (flat_map (lookups ctx) (children v))) as [e|].
      + by rewrite Hp.
      + destruct Hp as [ds ->]. by eexists. }
  induction v as [| s | n | m q | args _ | origin args IHo IHa | args IHa
                  | items IHa | items IHa | r] using pyval_parts_ind.
  - apply Hnode; [done|constructor].
  - apply Hnode; [done|constructor].
  - apply Hnode; [done|constructor].
  - apply Hnode; [done|constructor].
  - unfold follows_lookups.
    change (lookups ctx (PyLiteral args)) with (@nil string).
    change (first_raise api []) with (@None exn).
    eexists. apply pdoc_claimed, use_public_name_literal.
  - apply Hnode; [done|]. by constructor.
  - by apply Hnode.
  - by apply Hnode.
  - by apply Hnode.
  - apply Hnode; [done|constructor].
Qed.
End Rendering.

(** X12: rendering a value under the hook either returns or raises, and
    which of the two is decided by the lookups it makes, in the order it
    makes them: the classes other than [NoneType] that occur in the value
    outside any [Literal] and outside what an enclosing lookup replaced,
    and, under a context, the strings that evaluate to such classes.  When
    every lookup returns, [wl.pformat] returns; when one raises, the
    exception of the first that raises comes out of [wl.pformat], and the
    hook swallows none. *)
Theorem rendering_follows_lookups (wl_layout : pyval → list doc → doc)
    (wl_render : doc → string) (api : _PublicApi) (ctx : option context)
    (v : pyval) :
  match first_raise api (lookups ctx v) with
  | Some e =>
      pformat wl_layout wl_render (use_public_name wl_layout api ctx) v
      = Raise e
  | None =>
      ∃ s, pformat wl_layout wl_render (use_public_name wl_layout api ctx) v
           = Ok s
  end.
Proof.
  pose proof (pdoc_follows_lookups wl_layout api ctx v) as H.
  unfold follows_lookups, pformat in *.
  destruct (first_raise api (lookups ctx v)) as [e|].
  - by rewrite H.
  - destruct H as [d ->]. by eexists.
Qed.

(** An annotation that names a class the index does not know stops the
    rendering of the signature. *)
Example private_class_in_annotation :
  _pretty_annotation Example.ex_layout Example.ex_render
    (use_public_name Example.ex_layout Example.ex_api)
    (Value (PyUnion [PyStr "Pub"; PyClass "pkg._impl" "_Base"; NoneType]))
    Example.ex_context
  = Raise (NotInPublicApiException "pkg._impl._Base").
Proof. by vm_compute. Qed.

(** ** The mapping of displayed bases *)







(** ** Builtin bases *)




(** ** Attributes *)

(** X15: after [on_attribute_instance] an attribute shows no value and
    does not carry the label [module]; every other label is as it was; an
    attribute without the label keeps its labels unchanged; and running the
    hook again changes nothing. *)
Theorem attribute_is_stripped (attr : Attribute) :
  attr_value (on_attribute_instance attr) = None
  ∧ ("module" ∉ attr_labels (on_attribute_instance attr))
  ∧ (∀ l, l ≠ "module" →
          (l ∈ attr_labels (on_attribute_instance attr) ↔ l ∈ attr_labels attr))
  ∧ ("module" ∉ attr_labels attr →
     attr_labels (on_attribute_instance attr) = attr_labels attr)
  ∧ on_attribute_instance (on_attribute_instance attr)
    = on_attribute_instance attr.
Proof.
  unfold on_attribute_instance. simpl.
  split; [done|]. split; [|split; [|split]].
  - intros [_ H]%elem_of_difference. apply H. by apply elem_of_singleton.
  - intros l Hl. rewrite elem_of_difference, elem_of_singleton. tauto.
  - intros Hn. apply set_eq. intros l.
    rewrite elem_of_difference, elem_of_singleton.
    split; [tauto|]. intros Hl. split; [done|]. by intros ->.
  - f_equal. apply set_eq. intros l.
    rewrite !elem_of_difference, elem_of_singleton. tauto.
Qed.

Lemma attribute_is_stripped_witness :
  attr_labels (on_attribute_instance (MkAttribute (Some "3") {["writable"]}))
  = {["writable"]}.
Proof.
  refine (proj1 (proj2 (proj2 (proj2
            (attribute_is_stripped (MkAttribute (Some "3") {["writable"]})))))
            _).
  by vm_compute.
Defined.

(** ** Items examined once, and when a lookup is ambiguous *)

Section OnceFacts.
Variable g : graph.
Variable top_level_public_api : gset string.
Variable pkg : node.

Lemma pushed_items seen flag item :
  (pushed g seen flag item).*1
  = reverse (filter (λ x, x ∉ seen) (all_members g item)).
Proof.
  unfold pushed. rewrite fmap_reverse. f_equal.
  rewrite <- list_fmap_compose. apply list_fmap_id.
Qed.

Lemma loop_inv_once_init :
  loop_inv_once g top_level_public_api pkg (loop_init pkg).
Proof.
  split; [|split; [|split]]; simpl.
  - apply NoDup_singleton.
  - intros x f _. apply not_elem_of_empty.
  - intros x [Hx|[f Hx]]; [by apply elem_of_empty in Hx|].
    apply list_elem_of_singleton in Hx. injection Hx as -> _. by left.
  - intros key paths. by rewrite lookup_empty.
Qed.

Lemma loop_inv_once_step st item force_public rest st' :
  tree_shaped g pkg → members_distinct g →
  loop_inv g top_level_public_api pkg st →
  loop_inv_tree g top_level_public_api pkg st →
  loop_inv_once g top_level_public_api pkg st →
  ls_agenda st = (item, force_public) :: rest →
  loop_body g top_level_public_api st item force_public rest = Ok st' →
  loop_inv_once g top_level_public_api pkg st'.
Proof.
  intros [Hroot Hparent] Hdistinct (HA & _) Htree (Hnd & Hunseen & Hpar & Hdata)
    Hag Hb.
  rewrite Hag in Hnd, Hunseen, Hpar, HA. simpl in Hnd.
  apply NoDup_cons in Hnd as [Hhead Hnd].
  assert (Hitem : agenda_entry g top_level_public_api pkg item force_public)
    by (apply HA; by left).
  assert (Hfresh : item ∉ ls_seen st) by (apply (Hunseen item force_public); by left).
  set (seen' := {[item]} ∪ ls_seen st : gset node).
  assert (Hrest : ∀ x f, (x, f) ∈ rest → x ∉ seen').
  { intros x f Hx [->%elem_of_singleton|Hs]%elem_of_union.
    - apply Hhead. apply list_elem_of_fmap. by exists (item, f).
    - apply (Hunseen x f); [by right|done]. }
  assert (Hagenda : ∀ flag,
            NoDup (pushed g seen' flag item ++ rest).*1
            ∧ ∀ x f, (x, f) ∈ pushed g seen' flag item ++ rest → x ∉ seen').
  { intros flag. split.
    - rewrite fmap_app. apply NoDup_app. split; [|split; [|done]].
      + rewrite pushed_items, reverse_Permutation.
        apply NoDup_filter, Hdistinct.
      + intros y Hy Hy'. rewrite pushed_items in Hy.
        apply elem_of_reverse, list_elem_of_filter in Hy as [_ Hy].
        apply list_elem_of_fmap in Hy' as ([y' f] & -> & Hy'). simpl in *.
        destruct (Hpar y') as [->|(parent & Hp & Hm)].
        * right. exists f. by right.
        * by destruct (Hroot item).
        * assert (parent = item) as -> by (by eapply Hparent). done.
    - intros x f [Hx|Hx]%elem_of_app; [|by eapply Hrest].
      by apply (pushed_unseen g seen' flag item (x, f)) in Hx as [_ ?]. }
  assert (Hpar' : ∀ new,
            (∀ x f, (x, f) ∈ new → x ∈ all_members g item) →
            ∀ x, x ∈ seen' ∨ (∃ f, (x, f) ∈ new ++ rest) →
                 x = pkg ∨ ∃ parent, parent ∈ seen' ∧ x ∈ all_members g parent).
  { intros new Hnew x Hx.
    assert (Hold : x ∈ ls_seen st ∨ (∃ f, (x, f) ∈ (item, force_public) :: rest)
                   → x = pkg
                     ∨ ∃ parent, parent ∈ seen' ∧ x ∈ all_members g parent).
    { intros H. destruct (Hpar x H) as [?|(parent & ? & ?)]; [by left|].
      right. exists parent. split; [|done]. apply elem_of_union. by right. }
    destruct Hx as [[->%elem_of_singleton|Hx]%elem_of_union|[f Hx]].
    - apply Hold. right. exists force_public. by left.
    - apply Hold. by left.
    - apply elem_of_app in Hx as [Hx|Hx].
      + right. exists item. split; [|by eapply Hnew].
        apply elem_of_union. left. by apply elem_of_singleton.
      + apply Hold. right. exists f. by right. }
  assert (Hpushed : ∀ flag x f, (x, f) ∈ pushed g seen' flag item →
                      x ∈ all_members g item).
  { intros flag x f Hx.
    by apply (pushed_unseen g seen' flag item (x, f)) in Hx as [? _]. }
  (* when the data are left as they are *)
  assert (Hsame : (∀ fi, ¬ recorded g top_level_public_api pkg item fi) →
            ∀ key paths, ls_data st !! key = Some paths →
              ∃ items, NoDup items ∧ paths = path g <$> items
                ∧ ∀ i, i ∈ items
                       ↔ i ∈ seen'
                         ∧ ∃ fi, recorded g top_level_public_api pkg i fi
                                 ∧ path g fi = key).
  { intros Hnot key paths Hk.
    destruct (Hdata key paths Hk) as (items & Hn & Hp & Hi).
    exists items. split; [done|]. split; [done|]. intros i. rewrite Hi.
    split.
    - intros [? ?]. split; [apply elem_of_union; by right|done].
    - intros [[->%elem_of_singleton|?]%elem_of_union (fi & Hr & ?)]; [|eauto].
      by destruct (Hnot fi). }
  unfold loop_body in Hb.
  destruct (filter_item g item) as [[final_item|]|e] eqn:Hf; simpl in Hb;
    [| |done].
  - destruct (force_public || _) eqn:Hpub; injection Hb as <-;
      (split; [apply Hagenda|split; [apply Hagenda|split;
         [apply Hpar', Hpushed|]]]); simpl.
    + (* recorded *)
      assert (Hrec : recorded g top_level_public_api pkg item final_item)
        by (by exists force_public).
      intros key paths.
      destruct (decide (path g final_item = key)) as [<-|Hne].
      * rewrite lookup_insert_eq. intros [= <-].
        destruct (ls_data st !! path g final_item) as [ps0|] eqn:Hk0.
        -- destruct (Hdata _ _ Hk0) as (items & Hn & -> & Hi).
           exists (items ++ [item]). split; [|split].
           ++ apply NoDup_app. split; [done|]. split; [|apply NoDup_singleton].
              intros i Hi1 ->%list_elem_of_singleton.
              apply Hi in Hi1 as [? _]. done.
           ++ by rewrite fmap_app.
           ++ intros i. rewrite elem_of_app, list_elem_of_singleton, Hi.
              split.
              ** intros [[? ?]| ->].
                 --- split; [apply elem_of_union; by right|done].
                 --- split; [apply elem_of_union; left;
                             by apply elem_of_singleton|].
                     by exists final_item.
              ** intros [[->%elem_of_singleton|?]%elem_of_union ?];
                   [by right|by left].
        -- exists [item]. split; [apply NoDup_singleton|]. split; [done|].
           intros i. rewrite list_elem_of_singleton. split.
           ++ intros ->. split; [apply elem_of_union; left;
                                 by apply elem_of_singleton|].
              by exists final_item.
           ++ intros [[->%elem_of_singleton|Hs]%elem_of_union (fi & Hr & Hkey)];
                [done|].
              destruct Hr as (f & He & Hfi & Hp).
              destruct (Htree i f fi Hs He Hfi Hp) as (_ & ps & Hps & _).
              rewrite Hkey in Hps. congruence.
      * rewrite lookup_insert_ne by done. intros Hk.
        destruct (Hdata key paths Hk) as (items & Hn & Hp & Hi).
        exists items. split; [done|]. split; [done|]. intros i. rewrite Hi.
        split.
        -- intros [? ?]. split; [apply elem_of_union; by right|done].
        -- intros [[->%elem_of_singleton|?]%elem_of_union (fi & Hr & Hkey)];
             [|eauto].
           destruct Hr as (f & _ & Hfi & _). rewrite Hf in Hfi.
           injection Hfi as <-. done.
    + (* examined, not public *)
      apply Hsame. intros fi (f & He & _ & Hp).
      rewrite (agenda_entry_functional _ _ _ _ _ _ (conj Hroot Hparent)
                 He Hitem) in Hp.
      congruence.
  - (* skipped *)
    injection Hb as <-. split; [done|]. split; [exact Hrest|]. split; simpl.
    + apply (Hpar' []). intros x f Hx. by apply elem_of_nil in Hx.
    + apply Hsame. intros fi (f & _ & Hfi & _). congruence.
Qed.
End OnceFacts.

Section OnceLoop.
Variable g : graph.
Variable top_level_public_api : gset string.
Variable pkg : node.

Lemma loop_inv_once_loop fuel st st' :
  tree_shaped g pkg → members_distinct g →
  loop_inv g top_level_public_api pkg st →
  loop_inv_tree g top_level_public_api pkg st →
  loop_inv_once g top_level_public_api pkg st →
  loop g top_level_public_api fuel st = Some (Ok st') →
  loop_inv_once g top_level_public_api pkg st'.
Proof.
  intros Htree Hdist. revert st.
  induction fuel as [|fuel IH]; intros st H1 H2 H3; simpl.
  - destruct (ls_agenda st) as [|[item f] rest] eqn:E; [|done].
    by intros [= <-].
  - destruct (ls_agenda st) as [|[item f] rest] eqn:E; [by intros [= <-]|].
    destruct (loop_body g top_level_public_api st item f rest) as [st1|e]
      eqn:Hb; [|done].
    apply IH; [by eapply loop_inv_step|by eapply loop_inv_tree_step|
               by eapply loop_inv_once_step].
Qed.

Lemma NoDup_all_equal (l : list node) x :
  NoDup l → x ∈ l → (∀ y, y ∈ l → y = x) → l = [x].
Proof.
  intros Hn Hx Hall. destruct l as [|a l]; [by apply elem_of_nil in Hx|].
  assert (a = x) as -> by (apply Hall; by left).
  destruct l as [|b l]; [done|].
  assert (b = x) as -> by (apply Hall; right; by left).
  apply NoDup_cons in Hn as [Hn _]. destruct Hn. by left.
Qed.

Lemma NoDup_two (l : list node) x y :
  NoDup l → x ∈ l → y ∈ l → x ≠ y → 1 < length l.
Proof.
  intros Hn Hx Hy Hne. destruct l as [|a [|b l]]; simpl; [|exfalso|lia].
  - by apply elem_of_nil in Hx.
  - apply list_elem_of_singleton in Hx, Hy. congruence.
Qed.
End OnceLoop.

(** X16: on a tree-shaped graph whose member lists hold no node twice,
    whether a key of the built index can be looked up is decided by the
    public items behind it.  When exactly one public item has a final
    target with the key as its path, lookup of the key returns that item's
    path with autoref; when two different public items do, lookup raises
    the ambiguity error, and the paths of both are in the list it carries. *)
Theorem lookup_is_ambiguous_iff_two_items (g : graph)
    (top_level_public_api : gset string) (pkg : node) (fuel : nat)
    (bm sm em : list string) (api : _PublicApi) :
  tree_shaped g pkg → members_distinct g →
  new_PublicApi g top_level_public_api fuel pkg bm sm em = Some (Ok api) →
  (∀ item final_item,
      recorded g top_level_public_api pkg item final_item →
      (∀ item' final_item',
          recorded g top_level_public_api pkg item' final_item' →
          path g final_item' = path g final_item → item' = item) →
      getitem api (path g final_item) = Ok (path g item, true))
  ∧ (∀ item item' final_item final_item',
      recorded g top_level_public_api pkg item final_item →
      recorded g top_level_public_api pkg item' final_item' →
      path g final_item' = path g final_item → item ≠ item' →
      ∃ paths,
        getitem api (path g final_item)
        = Raise (AmbiguousPaths (path g final_item) paths)
        ∧ path g item ∈ paths ∧ path g item' ∈ paths).
Proof.
  intros Htree Hdist Hb.
  destruct (new_PublicApi_inv_seen _ _ _ _ _ _ _ _ Hb)
    as (st & Hloop & Hseen & Hag & Hapi).
  assert (Hinv : loop_inv g top_level_public_api pkg st).
  { by destruct (loop_inv_loop g top_level_public_api pkg fuel _ st
                   (loop_inv_init g top_level_public_api pkg) Hloop). }
  assert (Htr : loop_inv_tree g top_level_public_api pkg st).
  { eapply loop_inv_tree_loop; [done| | |exact Hloop].
    - apply loop_inv_init.
    - apply loop_inv_tree_init. }
  assert (Honce : loop_inv_once g top_level_public_api pkg st).
  { eapply loop_inv_once_loop; [done|done| | | |exact Hloop].
    - apply loop_inv_init.
    - apply loop_inv_tree_init.
    - apply loop_inv_once_init. }
  destruct Honce as (_ & _ & _ & Hdata).
  assert (Hrseen : ∀ item final_item,
            recorded g top_level_public_api pkg item final_item →
            item ∈ ls_seen st).
  { intros item final_item Hrec.
    pose proof (recorded_route_passes _ _ _ _ _ Hrec) as Hr.
    by apply (route_seen _ _ _ _ _ Hseen Hag Hr). }
  assert (Hitems : ∀ item final_item,
            recorded g top_level_public_api pkg item final_item →
            ∃ items, ls_data st !! path g final_item = Some (path g <$> items)
                     ∧ NoDup items
                     ∧ ∀ i, i ∈ items
                            ↔ i ∈ ls_seen st
                              ∧ ∃ fi, recorded g top_level_public_api pkg i fi
                                      ∧ path g fi = path g final_item).
  { intros item final_item Hrec.
    pose proof (Hrseen _ _ Hrec) as Hs.
    destruct Hrec as (f & He & Hf & Hp).
    destruct (Htr item f final_item Hs He Hf Hp) as (_ & paths & Hk & _).
    destruct (Hdata _ _ Hk) as (items & Hn & -> & Hi).
    by exists items. }
  rewrite Hapi. split.
  - intros item final_item Hrec Honly.
    destruct (Hitems item final_item Hrec) as (items & Hk & Hn & Hi).
    assert (items = [item]) as ->.
    { apply NoDup_all_equal; [done| |].
      - apply Hi. split; [by eapply Hrseen|]. by exists final_item.
      - intros i Hin. apply Hi in Hin as (_ & fi & Hri & Hkey).
        by eapply Honly. }
    apply getitem_single. exact Hk.
  - intros item item' final_item final_item' Hrec Hrec' Hkey Hne.
    destruct (Hitems item final_item Hrec) as (items & Hk & Hn & Hi).
    assert (Hin : item ∈ items).
    { apply Hi. split; [by eapply Hrseen|]. by exists final_item. }
    assert (Hin' : item' ∈ items).
    { apply Hi. split; [by eapply Hrseen|]. by exists final_item'. }
    exists (path g <$> items). split; [|split].
    + apply getitem_many; [exact Hk|]. rewrite length_fmap.
      by apply (NoDup_two items item item').
    + apply list_elem_of_fmap. by exists item.
    + apply list_elem_of_fmap. by exists item'.
Qed.

Lemma example_members_distinct : members_distinct Example.ex_graph.
Proof.
  intros x. simpl. unfold Example.ex_all_members.
  do 15 (destruct x as [|x]; [apply (bool_decide_unpack _); by vm_compute|]).
  apply NoDup_nil_2.
Qed.

Lemma lookup_is_ambiguous_iff_two_items_witness :
  ∃ paths,
    getitem Example.ex_api "pkg._impl.Dup"
    = Raise (AmbiguousPaths "pkg._impl.Dup" paths)
    ∧ "pkg.Dup" ∈ paths ∧ "pkg.sub.Dup" ∈ paths.
Proof.
  refine (proj2 (lookup_is_ambiguous_iff_two_items Example.ex_graph
                   Example.ex_top Example.pkg 30 ["builtins"] [] ["ext"]
                   Example.ex_api example_tree_shaped
                   example_members_distinct _)
            Example.alias_Dup Example.alias_sub_Dup Example.cls_Dup
            Example.cls_Dup _ _ _ _).
  - by vm_compute.
  - eexists. split; [|split; [reflexivity|]].
    + eapply (entry_member Example.ex_graph Example.ex_top Example.pkg
                Example.pkg false Example.pkg Example.alias_Dup).
      * apply entry_root.
      * reflexivity.
      * apply elem_of_cons. right. apply elem_of_cons. right. by left.
    + by vm_compute.
  - eexists. split; [|split; [reflexivity|]].
    + eapply (entry_member Example.ex_graph Example.ex_top Example.pkg
                Example.mod_sub _ Example.mod_sub Example.alias_sub_Dup).
      * eapply (entry_member Example.ex_graph Example.ex_top Example.pkg
                  Example.pkg false Example.pkg Example.mod_sub).
        -- apply entry_root.
        -- reflexivity.
        -- do 5 (apply elem_of_cons; right). by left.
      * reflexivity.
      * by left.
    + by vm_compute.
  - reflexivity.
  - discriminate.
Defined.

(** ** The first loop of [on_package_loaded] *)

Lemma displayed_without_builtins (g : graph) (has_builtin : string → bool)
    (api : _PublicApi) (public_modules : gset string) cls p a :
  "builtins" ∉ public_modules →
  displayed_base g has_builtin api public_modules cls p a →
  ∃ b, is_class g b = true ∧ getitem api (path g b) = Ok (p, a).
Proof.
  intros Hno. induction 1 as [cls nm _ Hin | cls b p a _ Hc Hg | ]; [done| |done].
  by exists b.
Qed.

(** X17: what the first loop of [on_package_loaded] stores.  A module or
    an attribute is left untouched.  With [show_bases] off a class gets its
    template and no bases, and nothing is looked up for it, so that nothing
    is raised.  With [show_bases] on, the public modules handed to
    [_collect_bases] are the extra and the stdlib modules only: when
    [builtins] is in neither list, every displayed base of a class is what
    the lookup of some class returned, and no builtin base is displayed,
    whatever [builtin_modules] holds. *)
Theorem first_loop_enrichment (g : graph) (has_builtin : string → bool)
    (wl_layout : pyval → list doc → doc) (wl_render : doc → string)
    (sys_modules : string → option context) (empty_dict : context)
    (fn_module : node → string) (fn_signature : node → Signature)
    (config : PluginConfig) (api : _PublicApi) (fuel : nat) (obj : node) :
  (obj_kind g obj = KModule ∨ obj_kind g obj = KAttribute →
   enrich g has_builtin wl_layout wl_render sys_modules empty_dict fn_module
     fn_signature config api fuel obj = Some (Ok Untouched))
  ∧ (obj_kind g obj = KClass → show_bases config = false →
     enrich g has_builtin wl_layout wl_render sys_modules empty_dict fn_module
       fn_signature config api fuel obj
     = Some (Ok (ClassPage "hippogriffe/class.html.jinja" None)))
  ∧ (∀ template d,
       "builtins" ∉ extra_public_modules config →
       "builtins" ∉ stdlib_modules config →
       enrich g has_builtin wl_layout wl_render sys_modules empty_dict
         fn_module fn_signature config api fuel obj
       = Some (Ok (ClassPage template (Some d))) →
       ∀ p a, (p, a) ∈ d →
              ∃ b, is_class g b = true ∧ getitem api (path g b) = Ok (p, a)).
Proof.
  unfold enrich. split; [|split].
  - by intros [-> | ->].
  - by intros -> ->.
  - intros template d He Hs.
    destruct (obj_kind g obj); try done;
      try (match goal with
           | |- context [_pretty_fn ?a ?b ?c ?d ?e ?f ?s] =>
               by destruct (_pretty_fn a b c d e f s)
           end).
    destruct (show_bases config); [|done].
    destruct (_collect_bases _ _ _ _ _ _) as [[d'|e]|] eqn:Hc; try done.
    intros [= _ <-] p a Hin.
    eapply displayed_without_builtins; [|by eapply collect_bases_sound].
    unfold public_modules_of.
    rewrite elem_of_union, !elem_of_list_to_set. tauto.
Qed.

Lemma first_loop_enrichment_witness :
  enrich Example.ex_graph Example.ex_has_builtin Example.ex_layout
    Example.ex_render (λ _, Some Example.ex_context) (λ _, None)
    (λ _, "pkg._impl") (λ _, MkSignature [] Empty)
    (MkPluginConfig ["builtins"] [] ["ext"] false SourceNone)
    Example.ex_api 3 Example.cls_Dup
  = Some (Ok (ClassPage "hippogriffe/class.html.jinja" None)).
Proof.
  refine (proj1 (proj2 (first_loop_enrichment Example.ex_graph
            Example.ex_has_builtin Example.ex_layout Example.ex_render
            (λ _, Some Example.ex_context) (λ _, None) (λ _, "pkg._impl")
            (λ _, MkSignature [] Empty)
            (MkPluginConfig ["builtins"] [] ["ext"] false SourceNone)
            Example.ex_api 3 Example.cls_Dup)) _ _); reflexivity.
Defined.

(** With [builtins] only among the builtin modules, the base [int] of
    [Dup] is not displayed; among the stdlib modules it is. *)
Example builtin_base_needs_public_builtins :
  enrich Example.ex_graph Example.ex_has_builtin Example.ex_layout
    Example.ex_render (λ _, Some Example.ex_context) (λ _, None)
    (λ _, "pkg._impl") (λ _, MkSignature [] Empty)
    (MkPluginConfig ["builtins"] [] ["ext"] true SourceNone)
    Example.ex_api 3 Example.cls_Dup
  = Some (Ok (ClassPage "hippogriffe/class.html.jinja" (Some [])))
  ∧ enrich Example.ex_graph Example.ex_has_builtin Example.ex_layout
      Example.ex_render (λ _, Some Example.ex_context) (λ _, None)
      (λ _, "pkg._impl") (λ _, MkSignature [] Empty)
      (MkPluginConfig ["builtins"] ["builtins"] ["ext"] true SourceNone)
      Example.ex_api 3 Example.cls_Dup
    = Some (Ok (ClassPage "hippogriffe/class.html.jinja"
                  (Some [("int", false)]))).
Proof. by vm_compute. Qed.

(** ** Return annotations of other functions *)

(** X18: only constructors lose their return annotation.  For a runtime
    object that has no [__name__] or a name other than [__init__], the
    stored signature is the signature of the object, and when it declares a
    return annotation and [_pretty_fn] returns, the displayed returns is
    the rendering of that annotation under the namespace of the module. *)
Theorem other_functions_keep_return_annotation
    (wl_layout : pyval → list doc → doc) (wl_render : doc → string)
    (hook : option context → pyval → result (option doc))
    (sys_modules : string → option context) (empty_dict : context)
    (module_path : string) (obj : runtime_obj) (v : pyval)
    (ps : list griffe_Parameter) (r : option string) :
  rt_name obj ≠ Some "__init__" →
  return_annotation (rt_signature obj) = Value v →
  _pretty_fn wl_layout wl_render hook sys_modules empty_dict module_path
    (on_function_instance obj) = Ok (ps, r) →
  on_function_instance obj = rt_signature obj
  ∧ ∃ s, r = Some s
         ∧ pformat wl_layout wl_render
             (hook (Some (default empty_dict (sys_modules module_path)))) v
           = Ok s.
Proof.
  intros Hn Hv.
  assert (Hs : on_function_instance obj = rt_signature obj).
  { unfold on_function_instance. destruct (rt_name obj) as [nm|]; [|done].
    destruct (decide (nm = "__init__")) as [->|]; [by destruct Hn|done]. }
  rewrite Hs. unfold _pretty_fn. rewrite Hv.
  destruct (pretty_params _ _ _ _ _) as [qs|e]; [|done]. simpl.
  destruct (pformat _ _ _ v) as [s|e]; [|done]. simpl.
  intros [= _ <-]. split; [done|]. by exists s.
Qed.

Lemma other_functions_keep_return_annotation_witness :
  ∃ s, Some "pkg.Foo" = Some s
       ∧ pformat Example.ex_layout Example.ex_render
           (use_public_name Example.ex_layout Example.ex_api
              (Some Example.ex_context)) (PyStr "Foo")
         = Ok s.
Proof.
  refine (proj2 (other_functions_keep_return_annotation Example.ex_layout
            Example.ex_render
            (use_public_name Example.ex_layout Example.ex_api)
            (λ _, Some Example.ex_context) (λ _, None) "pkg._impl"
            (RuntimeObj (Some "clone") (MkSignature [] (Value (PyStr "Foo"))))
            (PyStr "Foo") [] (Some "pkg.Foo") _ _ _)).
  - discriminate.
  - reflexivity.
  - by vm_compute.
Defined.
